(** * Metropolis Monte Carlo for the Gaussian system ([code/mc.py])

    A shallow embedding of [mc.py]: the Hamiltonian [H], its difference
    [delta_H], the proposal [uniform_step], the single update [metropolis],
    the chain driver [run_mc] and the entry point [main].

    The script computes with Python floats, draws from numpy's process-wide
    generator and writes rows to a csv file.  The embedding keeps these three
    effects explicit:

    - arithmetic goes through the interface [Number].  The instance the
      interpreter executes is IEEE-754 binary64, where [x ** 2] raises
      [OverflowError], results round and [inf] and [nan] exist; what is
      proved of the step and the driver holds in every instance or in this
      one.  The real numbers are a second instance, used for [salt_pepper]
      and for examples of the facts that hold in every instance;
    - the generator and the file system form the [world] that every
      operation threads, together with the exception it may raise.

    Not modelled: the parsing of the command line (the model starts from the
    parsed arguments), the textual form of a csv row, and a failing
    [open].

    The file ends with the array code of [fourier_orig.py] that does not go
    through the transform or the plotting library: [salt_pepper] and the
    loops that build the circular filter. *)

From Stdlib Require Import ZArith QArith Reals Lra Lia.
From Stdlib Require Import Floats.SpecFloat.
From stdpp Require Import base option list strings gmap.

(** ** Exceptions and outcomes *)

(** The Python exceptions that matter here.  [InvalidParameter] is the
    configuration error the design document names; no statement of the
    script raises it. *)
Inductive exn : Type :=
  | OverflowError
  | InvalidParameter.

Inductive outcome (A : Type) : Type :=
  | Returned (a : A)
  | Raised (e : exn).
Arguments Returned {A} a.
Arguments Raised {A} e.

Definition is_returned {A} (o : outcome A) : bool :=
  match o with Returned _ => true | Raised _ => false end.

(** ** Numbers *)

(** What [mc.py] asks of its scalars.  [num_sqr] is [x ** 2], the only
    arithmetic operator of the script that can raise; [num_exp] is [np.exp];
    [num_finite] is [np.isfinite], which [np.random.uniform] applies to the
    width of its interval. *)
Class Number (T : Type) : Type := {
  num_one : T;
  num_add : T -> T -> T;
  num_sub : T -> T -> T;
  num_mul : T -> T -> T;
  num_neg : T -> T;
  num_sqr : T -> outcome T;
  num_exp : T -> T;
  num_ltb : T -> T -> bool;
  num_finite : T -> bool
}.

Declare Scope num_scope.
Delimit Scope num_scope with num.
Infix "+" := num_add : num_scope.
Infix "-" := num_sub : num_scope.
Infix "*" := num_mul : num_scope.
Notation "- x" := (num_neg x) : num_scope.
Infix "<?" := num_ltb : num_scope.

(** ** The world: generator state and files *)

(** One cell of a csv row, as passed to [writer.writerow]. *)
Inductive cell (T : Type) : Type :=
  | CStr (s : string)
  | CNum (x : T)
  | CInt (z : Z).
Arguments CStr {T} s.
Arguments CNum {T} x.
Arguments CInt {T} z.

(** The process-wide generator is the sequence of unit draws it will hand
    out ([rng_draws], fixed by the seed) and the number of draws already
    consumed ([rng_pos]).  [files] maps a path to the rows written so far. *)
Record world (T : Type) : Type := World {
  rng_draws : nat -> T;
  rng_pos : nat;
  files : gmap string (list (list (cell T)))
}.
Arguments World {T} _ _ _.
Arguments rng_draws {T} _ _.
Arguments rng_pos {T} _.
Arguments files {T} _.

(** Computations that read and update the world and may raise. *)
Definition M (T A : Type) : Type := world T -> outcome A * world T.

Definition ret {T A} (a : A) : M T A := fun w => (Returned a, w).

Definition bind {T A B} (c : M T A) (k : A -> M T B) : M T B :=
  fun w =>
    match c w with
    | (Returned a, w') => k a w'
    | (Raised e, w') => (Raised e, w')
    end.

Definition raise {T A} (e : exn) : M T A := fun w => (Raised e, w).

Definition lift_outcome {T A} (o : outcome A) : M T A := fun w => (o, w).

Declare Scope mc_scope.
Delimit Scope mc_scope with mc.
Notation "x <- c ;; k" := (bind c (fun x => k))
  (at level 100, c at next level, k at level 200, right associativity) : mc_scope.
Notation "c ;; k" := (bind c (fun _ => k)) : mc_scope.

Section Primitives.
Context {T : Type} {NT : Number T}.

(** [np.random.random()]: the next unit draw. *)
Definition np_random_random : M T T :=
  fun w => (Returned (rng_draws w (rng_pos w)),
            World (rng_draws w) (S (rng_pos w)) (files w)).

(** [np.random.uniform(low, high)]: numpy rejects an interval whose width
    is not finite, and otherwise returns [low + (high - low) * u] for the
    next unit draw [u]. *)
Definition np_random_uniform (low high : T) : M T T :=
  let range := (high - low)%num in
  if num_finite range then
    (u <- np_random_random ;; ret (low + range * u)%num)%mc
  else raise OverflowError.

(** [open(path, "w")]: the file is created, or truncated if it exists. *)
Definition open_w (path : string) : M T unit :=
  fun w => (Returned tt,
            World (rng_draws w) (rng_pos w) (<[path := []]> (files w))).

(** [writer.writerow(row)] on the writer of the file at [path]. *)
Definition writerow (path : string) (row : list (cell T)) : M T unit :=
  fun w => (Returned tt,
            World (rng_draws w) (rng_pos w)
                  (alter (fun rows => rows ++ [row]) path (files w))).
End Primitives.

(** ** The functions of [mc.py] *)

Section MC.
Context {T : Type} {NT : Number T}.
Local Open Scope mc_scope.

(** [def H(x): return x ** 2] *)
Definition H (x : T) : outcome T := num_sqr x.

(** [def delta_H(x_old, x_new): return H(x_new) - H(x_old)] *)
Definition delta_H (x_old x_new : T) : outcome T :=
  match H x_new with
  | Returned e_new =>
      match H x_old with
      | Returned e_old => Returned (e_new - e_old)%num
      | Raised e => Raised e
      end
  | Raised e => Raised e
  end.

(** [def uniform_step(x, h): return x + h * np.random.uniform(-h, h)] *)
Definition uniform_step (x h : T) : M T T :=
  U <- np_random_uniform (- h)%num h ;;
  ret (x + h * U)%num.

(** [def metropolis(x, h, beta)] *)
Definition metropolis (x h beta : T) : M T (T * Z) :=
  x_new <- uniform_step x h ;;
  d <- lift_outcome (delta_H x x_new) ;;
  let exp_minusbetadeltaH := num_exp (- beta * d)%num in
  if (num_one <? exp_minusbetadeltaH)%num then
    ret (x_new, 1%Z)
  else
    u <- np_random_random ;;
    if (u <? exp_minusbetadeltaH)%num then ret (x_new, 1%Z)
    else ret (x, 0%Z).

(** The body of [for i in range(num_iterations)], run [n] times from the
    current [x]; the value returned is [x] when the loop exits. *)
Fixpoint mc_loop (n : nat) (x h beta : T) (output_file : string) : M T T :=
  match n with
  | O => ret x
  | S n' =>
      r <- metropolis x h beta ;;
      let '(x', accept) := r in
      writerow output_file [CNum x'; CInt accept] ;;
      mc_loop n' x' h beta output_file
  end.

(** [def run_mc(x, h, beta, num_iterations, output_file)];
    [range(k)] is empty for [k <= 0]. *)
Definition run_mc (x h beta : T) (num_iterations : Z)
    (output_file : string) : M T unit :=
  open_w output_file ;;
  writerow output_file [CStr "x"; CStr "accept"] ;;
  mc_loop (Z.to_nat num_iterations) x h beta output_file ;;
  ret tt.

(** The parsed command line. *)
Record args : Type := Args {
  arg_x0 : T;
  arg_beta : T;
  arg_h : T;
  arg_num_iterations : Z;
  arg_output_file : string
}.

(** [def main()], after [parser.parse_args()]. *)
Definition main (a : args) : M T unit :=
  run_mc (arg_x0 a) (arg_h a) (arg_beta a)
         (arg_num_iterations a) (arg_output_file a).
End MC.

(** ** The two arithmetics *)

(** *** Real numbers: no operation raises, every number is finite. *)

Definition Rltb (a b : R) : bool := if Rlt_dec a b then true else false.

#[global] Instance Number_R : Number R := {|
  num_one := 1%R;
  num_add := Rplus;
  num_sub := Rminus;
  num_mul := Rmult;
  num_neg := Ropp;
  num_sqr := fun x => Returned (x ^ 2)%R;
  num_exp := exp;
  num_ltb := Rltb;
  num_finite := fun _ => true
|}.

(** *** binary64: Python's [float], numpy's [float64] *)

Module Float64.

Definition prec : Z := 53.
Definition emax : Z := 1024.

(** [float.__pow__(x, 2.0)]: [nan], the infinities and the zeros are
    answered directly; for the other values the C library computes the
    square (taken here as the correctly rounded one), and an infinite
    result is reported as [OverflowError]. *)
Definition float_pow2 (x : spec_float) : outcome spec_float :=
  match x with
  | S754_nan => Returned S754_nan
  | S754_infinity _ => Returned (S754_infinity false)
  | S754_zero _ => Returned (S754_zero false)
  | S754_finite _ _ _ =>
      match SFmul prec emax x x with
      | S754_infinity _ => Raised OverflowError
      | r => Returned r
      end
  end.

(** [np.isfinite] *)
Definition isfinite (x : spec_float) : bool :=
  match x with
  | S754_zero _ | S754_finite _ _ _ => true
  | S754_infinity _ | S754_nan => false
  end.

(** The interface at binary64, for a given [np.exp].  numpy's [exp] is a
    total function on [float64]: out of range it answers [inf] or [0.0]
    (and warns), it does not raise. *)
Definition Number_binary64 (np_exp : spec_float -> spec_float)
  : Number spec_float := {|
  num_one := SFone prec emax;
  num_add := SFadd prec emax;
  num_sub := SFsub prec emax;
  num_mul := SFmul prec emax;
  num_neg := SFopp;
  num_sqr := float_pow2;
  num_exp := np_exp;
  num_ltb := SFltb;
  num_finite := isfinite
|}.

(** [1e200], that is [5883593420661338 * 2^612]. *)
Definition f_1e200 : spec_float := S754_finite false 5883593420661338 612.

(** [0.0] and [1.0] *)
Definition f_zero : spec_float := S754_zero false.
Definition f_one : spec_float := S754_finite false 4503599627370496 (-52).

(** A function that agrees with [exp] at the two zeros, where [exp] is
    exactly [1.0], and answers [nan] elsewhere: enough to run a step whose
    energy difference is zero. *)
Definition exp_at_zero (e : spec_float) : spec_float :=
  match e with
  | S754_zero _ => f_one
  | _ => S754_nan
  end.

(** A generator that always draws [0.0], with no files. *)
Definition w_zero : world spec_float := World (fun _ => f_zero) 0 ∅.

(** [inf], [1e308], that is [5010420900022432 * 2^971], [8e307], that is
    [8016673440035891 * 2^970], and [0.75]. *)
Definition f_inf : spec_float := S754_infinity false.
Definition f_8e307 : spec_float := S754_finite false 8016673440035891 970.
Definition f_075 : spec_float := S754_finite false 6755399441055744 (-53).

(** A generator that always draws [0.75], with no files. *)
Definition w_075 : world spec_float := World (fun _ => f_075) 0 ∅.

Definition is_zero (x : spec_float) : bool :=
  match x with
  | S754_zero _ => true
  | _ => false
  end.


(** What numpy's generator hands out: [0.0] or a positive float below
    [1.0]. *)
Definition is_unit_draw (u : spec_float) : bool :=
  match u with
  | S754_zero false => true
  | S754_finite false _ _ => SFltb u f_one
  | _ => false
  end.


End Float64.

(** ** Bookkeeping on worlds *)

(** The world after [k] more draws have been consumed. *)
Definition rng_skip {T} (k : nat) (w : world T) : world T :=
  World (rng_draws w) (k + rng_pos w) (files w).

(** The world with its files replaced. *)
Definition set_files {T} (f : gmap string (list (list (cell T))))
    (w : world T) : world T :=
  World (rng_draws w) (rng_pos w) f.

(** numpy's unit draws lie in the half-open interval [[0, 1)]. *)
Definition unit_draws (w : world R) : Prop :=
  forall i, (0 <= rng_draws w i < 1)%R.

(** The header row and a data row, as [run_mc] writes them. *)
Definition header_row {T} : list (cell T) := [CStr "x"; CStr "accept"].
Definition data_row {T} (r : T * Z) : list (cell T) :=
  [CNum (fst r); CInt (snd r)].

(** A generator that always draws [1/2], with no files, and one that has
    an earlier run's output in [out.csv]. *)
Definition w_half : world R := World (fun _ => (/ 2)%R) 0 ∅.
Definition w_old : world R :=
  World (fun _ => (/ 2)%R) 0 {[ "out.csv" := [header_row; data_row (1%R, 1%Z)] ]}.

(** A generator whose first six draws are [1/2] and whose later draws are
    [0]: another seed with the same first six draws as [w_half]. *)
Definition w_half_six : world R :=
  World (fun i => if (i <? 6)%nat then (/ 2)%R else 0%R) 0 ∅.

(** ** The steps of a run *)

(** What one iteration of the loop of [run_mc] goes through: the state it
    hands to [metropolis] as [x], the proposal [uniform_step] draws from it,
    and the pair [metropolis] returns, which becomes the record. *)
Record step_log (T : Type) : Type := StepLog {
  step_x_old : T;
  step_proposal : outcome T;
  step_record : T * Z
}.
Arguments StepLog {T} _ _ _.
Arguments step_x_old {T} _.
Arguments step_proposal {T} _.
Arguments step_record {T} _.

(** The log of the first [n] iterations started from [x] in world [w]; it
    ends early at an iteration that raises. *)
Fixpoint chain {T} {NT : Number T} (n : nat) (x h beta : T) (w : world T)
    : list (step_log T) :=
  match n with
  | O => []
  | S n' =>
      match metropolis x h beta w with
      | (Returned r, w') =>
          StepLog x (fst (uniform_step x h w)) r :: chain n' (fst r) h beta w'
      | (Raised _, _) => []
      end
  end.

(** The state held after a list of records, starting from [x0]. *)
Definition current_state {T} (x0 : T) (recs : list (T * Z)) : T :=
  List.last (map fst recs) x0.

(** Two worlds that agree on files, on the generator's position and on its
    next [k] draws. *)
Definition same_draws {T} (k : nat) (w1 w2 : world T) : Prop :=
  files w1 = files w2 /\ rng_pos w1 = rng_pos w2 /\
  forall i, rng_pos w1 <= i < rng_pos w1 + k -> rng_draws w1 i = rng_draws w2 i.

(** In binary64: the energy difference of a logged step was computed
    without error and is finite. *)
Definition energy_finite (np_exp : spec_float -> spec_float)
    (s : step_log spec_float) : bool :=
  match step_proposal s with
  | Returned cand =>
      match delta_H (NT := Float64.Number_binary64 np_exp) (step_x_old s) cand with
      | Returned d => Float64.isfinite d
      | Raised _ => false
      end
  | Raised _ => false
  end.

(** * The array code of [fourier_orig.py]

    Two parts of the script compute on arrays without calling the transform
    or the plotting library: the function [salt_pepper] and the loops that
    build the circular filter.  A two-dimensional numpy array is the list of
    its rows. *)

(** [a[i, j]] *)
Definition getitem2 {A} (a : list (list A)) (i j : nat) : option A :=
  match a !! i with
  | Some row => row !! j
  | None => None
  end.

(** The number of entries of an array. *)
Definition np_size {A} (a : list (list A)) : nat :=
  foldr (fun row n => length row + n) 0 a.

(** ** [salt_pepper] *)

(** [np.random.random(shape)] fills an array of that shape with unit draws,
    row after row. *)
Fixpoint random_row (n : nat) : M R (list R) :=
  match n with
  | O => ret []
  | S n' =>
      (u <- np_random_random ;;
       us <- random_row n' ;;
       ret (u :: us))%mc
  end.

Fixpoint np_random_random_shape (image : list (list R)) : M R (list (list R)) :=
  match image with
  | [] => ret []
  | row :: rest =>
      (us <- random_row (length row) ;;
       uss <- np_random_random_shape rest ;;
       ret (us :: uss))%mc
  end.

(** [a < c] and [a > c] for an array [a] and a scalar [c]. *)
Definition np_less (a : list (list R)) (c : R) : list (list bool) :=
  map (map (fun u => Rltb u c)) a.
Definition np_greater (a : list (list R)) (c : R) : list (list bool) :=
  map (map (fun u => Rltb c u)) a.

(** [np.zeros_like(a)], [np.ones_like(a)] and [a * c]. *)
Definition np_zeros_like (a : list (list R)) : list (list R) :=
  map (map (fun _ => 0%R)) a.
Definition np_ones_like (a : list (list R)) : list (list R) :=
  map (map (fun _ => 1%R)) a.
Definition np_times (a : list (list R)) (c : R) : list (list R) :=
  map (map (fun v => (v * c)%R)) a.

(** [np.where(cond, a, b)] on arrays of one shape. *)
Fixpoint where_row (cond : list bool) (a b : list R) : list R :=
  match cond, a, b with
  | c :: cond', x :: a', y :: b' =>
      (if c then x else y) :: where_row cond' a' b'
  | _, _, _ => []
  end.

Fixpoint np_where (cond : list (list bool)) (a b : list (list R))
    : list (list R) :=
  match cond, a, b with
  | c :: cond', x :: a', y :: b' => where_row c x y :: np_where cond' a' b'
  | _, _, _ => []
  end.

(** [def salt_pepper(image, r)]; [min(1, r)] is [r] when [r < 1] and [1]
    otherwise. *)
Definition salt_pepper (image : list (list R)) (r : R) : M R (list (list R)) :=
  let r := if Rltb r 1 then r else 1%R in
  (uniform_random <- np_random_random_shape image ;;
   let noisy_image :=
     np_where (np_less uniform_random (r / 2)%R)
              (np_zeros_like image)
              image in
   let noisy_image :=
     np_where (np_greater uniform_random (1 - r / 2)%R)
              (np_times (np_ones_like image) 255%R)
              noisy_image in
   ret noisy_image)%mc.

(** What the two passes of [salt_pepper] leave at an entry with value [v]
    whose draw is [u]: the second [np.where] decides first. *)
Definition salt_pepper_entry (r v u : R) : R :=
  if Rltb (1 - r / 2)%R u then (1 * 255)%R
  else if Rltb u (r / 2)%R then 0%R
  else v.

(** A two-by-two image, for examples. *)
Definition image_2x2 : list (list R) := [[10%R; 20%R]; [30%R; 40%R]].

(** ** The circular filter *)

(** Numbers here are rationals: the centre is a half-integer and every
    value the loops compute is exact in binary64 for an image of any
    realistic size.  [None] stands for the [IndexError] of an assignment
    outside the array. *)

(** [a[i, j] = v] *)
Definition setitem2 {A} (a : list (list A)) (i j : nat) (v : A)
    : option (list (list A)) :=
  match a !! i with
  | Some row =>
      if decide (j < length row)%nat then Some (<[i := <[j := v]> row]> a)
      else None
  | None => None
  end.

(** [for k in range(n): s = body(k, s)], stopping at the first error. *)
Definition for_range {S} (n : nat) (body : nat -> S -> option S) (s : S)
    : option S :=
  foldl (fun acc k => match acc with Some s' => body k s' | None => None end)
        (Some s) (seq 0 n).

(** [floor(width) / 2] *)
Definition centre (width : nat) : Q := (inject_Z (Z.of_nat width) / 2)%Q.

Definition filter_radius : Q := 100%Q.

(** [(i - centre_x) ** 2 + (j - centre_y) ** 2 > filter_radius ** 2] *)
Definition outside_radius (centre_x centre_y : Q) (i j : nat) : bool :=
  negb (Qle_bool
          ((inject_Z (Z.of_nat i) - centre_x) ^ 2
           + (inject_Z (Z.of_nat j) - centre_y) ^ 2)%Q
          (filter_radius ^ 2)%Q).

(** An array of [width] rows of [height] entries. *)
Definition shape2 {A} (a : list (list A)) (width height : nat) : Prop :=
  length a = width /\ Forall (fun row => length row = height) a.

(** [1 - a] for an array [a]. *)
Definition one_minus (a : list (list Q)) : list (list Q) :=
  map (map (fun v => (1 - v)%Q)) a.

(** The array [filter] that lines 17 to 32 of the script build for an image
    of shape [(width, height)]: zeros, then [1] wherever the loops find the
    entry outside the radius. *)
Definition circular_filter (width height : nat) : option (list (list Q)) :=
  let centre_x := centre width in
  let centre_y := centre height in
  let filter := replicate width (replicate height 0%Q) in
  for_range width (fun i filter =>
    for_range height (fun j filter =>
      if outside_radius centre_x centre_y i j
      then setitem2 filter i j 1%Q
      else Some filter) filter) filter.

(** [filter = 1 - filter], line 35: the array applied to the transform of
    the image. *)
Definition inverted_filter (width height : nat) : option (list (list Q)) :=
  one_minus <$> circular_filter width height.

(** [lowpass_filter = 1 - filter], line 95: the array applied to the
    transform of the noisy image. *)
Definition lowpass_filter (width height : nat) : option (list (list Q)) :=
  one_minus <$> inverted_filter width height.

(** * Properties *)

(** ** Facts that hold in every arithmetic *)

Section Generic.
Context {T : Type} {NT : Number T}.
Implicit Types (x h beta : T) (w : world T).

Lemma rng_skip_0 w : rng_skip 0 w = w.
Proof. by destruct w. Qed.

(** A step leaves the files alone and consumes at most two draws. *)
Lemma metropolis_world x h beta w :
  exists k, k <= 2 /\ snd (metropolis x h beta w) = rng_skip k w.
Proof.
  unfold metropolis, uniform_step, np_random_uniform, bind, ret, raise,
    lift_outcome, np_random_random; simpl.
  destruct (num_finite _); simpl.
  - destruct (delta_H _ _); simpl.
    + destruct (num_ltb num_one _); simpl.
      * exists 1. split; [lia | done].
      * destruct (num_ltb _ _); simpl; exists 2; (split; [lia | done]).
    + exists 1. split; [lia | done].
  - exists 0. split; [lia | by rewrite rng_skip_0].
Qed.

(** A step reads nothing but the generator's next two draws. *)
Lemma metropolis_same_draws x h beta k w1 w2 :
  same_draws (2 + k) w1 w2 ->
  fst (metropolis x h beta w1) = fst (metropolis x h beta w2) /\
  same_draws k (snd (metropolis x h beta w1)) (snd (metropolis x h beta w2)).
Proof.
  intros (Hf & Hp & Hd).
  assert (H0 : rng_draws w1 (rng_pos w1) = rng_draws w2 (rng_pos w2))
    by (rewrite <- Hp; apply Hd; lia).
  assert (H1 : rng_draws w1 (S (rng_pos w1)) = rng_draws w2 (S (rng_pos w2)))
    by (rewrite <- Hp; apply Hd; lia).
  assert (Hk : forall j, j <= 2 -> same_draws k (rng_skip j w1) (rng_skip j w2)).
  { intros j Hj. unfold same_draws, rng_skip; simpl.
    repeat split; [done | lia |]. intros i Hi. apply Hd. lia. }
  unfold metropolis, uniform_step, np_random_uniform, bind, ret, raise,
    lift_outcome, np_random_random; simpl.
  destruct (num_finite _); simpl.
  - rewrite <- H0. destruct (delta_H _ _); simpl.
    + destruct (num_ltb num_one _); simpl.
      * split; [done | apply (Hk 1); lia].
      * rewrite <- H1. destruct (num_ltb _ _); simpl;
          (split; [done | apply (Hk 2); lia]).
    + split; [done | apply (Hk 1); lia].
  - split; [done |]. specialize (Hk 0). rewrite !rng_skip_0 in Hk.
    apply Hk; lia.
Qed.

(** Writing a row keeps the generator, and keeps two worlds in step. *)
Lemma writerow_same_draws path row k w1 w2 :
  same_draws k w1 w2 ->
  same_draws k (snd (writerow path row w1)) (snd (writerow path row w2)).
Proof.
  intros (Hf & Hp & Hd). unfold same_draws, writerow; simpl.
  rewrite Hf. done.
Qed.

(** The loop on two worlds in step for [2 * n] draws. *)
Lemma mc_loop_same_draws n : forall x h beta path w1 w2,
  same_draws (2 * n) w1 w2 ->
  fst (mc_loop n x h beta path w1) = fst (mc_loop n x h beta path w2) /\
  files (snd (mc_loop n x h beta path w1))
    = files (snd (mc_loop n x h beta path w2)) /\
  rng_pos (snd (mc_loop n x h beta path w1))
    = rng_pos (snd (mc_loop n x h beta path w2)).
Proof.
  induction n as [|n IH]; intros x h beta path w1 w2 Hs.
  - destruct Hs as (Hf & Hp & _). unfold mc_loop, ret; simpl. done.
  - replace (2 * S n) with (2 + 2 * n) in Hs by lia.
    destruct (metropolis_same_draws x h beta _ _ _ Hs) as [Hr Hs'].
    simpl. unfold bind at 1 3 5 7 9 11.
    destruct (metropolis x h beta w1) as [[r1|e1] w1'],
             (metropolis x h beta w2) as [[r2|e2] w2']; simpl in *;
      try discriminate.
    + injection Hr as ->. destruct r2 as [x' a].
      unfold bind.
      apply (writerow_same_draws path [CNum x'; CInt a]) in Hs'.
      destruct (writerow path _ w1') as [[[]|?] v1] eqn:E1; [|discriminate E1].
      destruct (writerow path _ w2') as [[[]|?] v2] eqn:E2; [|discriminate E2].
      simpl in Hs'. apply IH, Hs'.
    + injection Hr as ->. destruct Hs' as (Hf & Hp & _). done.
Qed.
End Generic.

(** ** Comparisons on the real numbers *)

Section RealStep.
Local Open Scope R_scope.
Implicit Types (x h beta : R) (w : world R).

Lemma Rltb_lt a b : Rltb a b = true <-> a < b.
Proof. unfold Rltb. destruct (Rlt_dec a b); split; intros; (done || lra). Qed.

Lemma Rltb_ge a b : Rltb a b = false <-> b <= a.
Proof. unfold Rltb. destruct (Rlt_dec a b); split; intros; (done || lra). Qed.

Lemma w_half_unit : unit_draws w_half.
Proof. intros i. simpl. lra. Qed.
End RealStep.

(** ** The loop and its log, in every arithmetic *)

Section GenericRun.
Context {T : Type} {NT : Number T}.
Implicit Types (x h beta : T) (w : world T) (path : string).

(** A step does not look at the files. *)
Lemma metropolis_set_files x h beta f w :
  metropolis x h beta (set_files f w)
  = (fst (metropolis x h beta w), set_files f (snd (metropolis x h beta w))).
Proof.
  unfold metropolis, uniform_step, np_random_uniform, bind, ret, raise,
    lift_outcome, np_random_random; simpl.
  destruct (num_finite _); simpl; [| done].
  destruct (delta_H _ _); simpl; [| done].
  destruct (num_ltb num_one _); simpl; [done |].
  destruct (num_ltb _ _); done.
Qed.

Lemma uniform_step_set_files x h f w :
  fst (uniform_step x h (set_files f w)) = fst (uniform_step x h w).
Proof.
  unfold uniform_step, np_random_uniform, bind, ret, raise,
    np_random_random; simpl.
  destruct (num_finite _); done.
Qed.

Lemma metropolis_files x h beta w :
  files (snd (metropolis x h beta w)) = files w.
Proof. destruct (metropolis_world x h beta w) as (k & _ & ->). done. Qed.

Lemma metropolis_draws x h beta w :
  rng_draws (snd (metropolis x h beta w)) = rng_draws w.
Proof. destruct (metropolis_world x h beta w) as (k & _ & ->). done. Qed.

Lemma chain_set_files n : forall x h beta f w,
  chain n x h beta (set_files f w) = chain n x h beta w.
Proof.
  induction n as [|n IH]; intros x h beta f w; [done |].
  simpl. rewrite metropolis_set_files, uniform_step_set_files.
  destruct (metropolis x h beta w) as [[r|e] w']; simpl; [| done].
  by rewrite IH.
Qed.

Lemma chain_length n x h beta w : length (chain n x h beta w) <= n.
Proof.
  revert x w. induction n as [|n IH]; intros x w; simpl; [lia |].
  destruct (metropolis x h beta w) as [[r|e] w']; simpl; [| lia].
  specialize (IH (fst r) w'). lia.
Qed.

Lemma writerow_eq path row w :
  writerow path row w
  = (Returned tt, set_files (alter (fun rows => rows ++ [row]) path (files w)) w).
Proof. reflexivity. Qed.

Lemma last_cons_default (l : list T) : forall a d,
  List.last (a :: l) d = List.last l a.
Proof.
  induction l as [|b l IH]; intros a d; [done |].
  change (List.last (a :: b :: l) d) with (List.last (b :: l) d).
  by rewrite (IH b d), (IH b a).
Qed.

Lemma current_state_cons x (r : T * Z) recs :
  current_state x (r :: recs) = current_state (fst r) recs.
Proof. unfold current_state. simpl map. apply last_cons_default. Qed.

(** The loop appends to the output file the records of its log, one row
    per completed iteration and in order, also when an iteration raises;
    it touches no other file and keeps the generator's sequence; when no
    iteration raises it exits with the state of the last record. *)
Lemma mc_loop_chain n : forall x h beta path w rows0,
  files w !! path = Some rows0 ->
  let log := chain n x h beta w in
  let recs := map step_record log in
  let res := mc_loop n x h beta path w in
  files (snd res) !! path = Some (rows0 ++ map data_row recs) /\
  (forall p, p <> path -> files (snd res) !! p = files w !! p) /\
  rng_draws (snd res) = rng_draws w /\
  (length log = n -> fst res = Returned (current_state x recs)) /\
  (length log < n -> exists e, fst res = Raised e).
Proof.
  induction n as [|n IH]; intros x h beta path w rows0 Hrows; simpl.
  - rewrite app_nil_r. repeat split; [done | lia].
  - unfold bind at 1 3 5 7 9.
    pose proof (metropolis_files x h beta w) as Hf.
    pose proof (metropolis_draws x h beta w) as Hd.
    destruct (metropolis x h beta w) as [[[x' a]|e] w1]; simpl in *.
    + unfold bind. rewrite writerow_eq.
      set (w2 := set_files _ w1).
      assert (Hrows2 : files w2 !! path = Some (rows0 ++ [data_row (x', a)])).
      { subst w2. simpl. rewrite lookup_alter_eq, Hf, Hrows. done. }
      destruct (IH x' h beta path w2 _ Hrows2) as (I1 & I2 & I3 & I4 & I5).
      unfold w2 in I1, I4, I5. rewrite chain_set_files in I1, I4, I5.
      fold w2 in I1, I4, I5.
      split; [by rewrite I1, <- app_assoc |].
      split.
      { intros p Hp. rewrite (I2 p Hp). subst w2. simpl.
        rewrite lookup_alter_ne by done. by rewrite Hf. }
      split; [by rewrite I3, <- Hd |].
      split.
      { intros Hlen. rewrite current_state_cons. apply I4. simpl. lia. }
      { intros Hlen. apply I5. lia. }
    + rewrite app_nil_r, Hf. repeat split; [done | done | lia | eauto].
Qed.
End GenericRun.

Section GenericDriver.
Context {T : Type} {NT : Number T}.
Implicit Types (x h beta : T) (w : world T) (path : string).

(** The loop exits with the state of the last record of its log. *)
Lemma mc_loop_result n : forall x h beta path w,
  length (chain n x h beta w) = n ->
  fst (mc_loop n x h beta path w)
  = Returned (current_state x (map step_record (chain n x h beta w))).
Proof.
  induction n as [|n IH]; intros x h beta path w Hlen; [done |].
  simpl in *. unfold bind at 1.
  destruct (metropolis x h beta w) as [[[x' a]|e] w1]; simpl in *; [| lia].
  unfold bind. rewrite writerow_eq, current_state_cons. simpl fst.
  rewrite <- (chain_set_files n x' h beta
                (alter (fun rows => rows ++ [[CNum x'; CInt a]]) path (files w1)) w1).
  apply IH. rewrite chain_set_files. lia.
Qed.

(** The driver is the loop, started in the world where the output file
    holds the header row alone. *)
Lemma run_mc_eq x h beta N path w :
  run_mc x h beta N path w
  = match mc_loop (Z.to_nat N) x h beta path
            (set_files (<[path := [header_row]]> (files w)) w) with
    | (Returned _, w') => (Returned tt, w')
    | (Raised e, w') => (Raised e, w')
    end.
Proof.
  unfold run_mc, bind, open_w. rewrite writerow_eq. simpl files.
  rewrite alter_insert_eq. unfold set_files at 1. simpl.
  unfold set_files. by destruct (mc_loop _ _ _ _ _ _) as [[?|?] ?].
Qed.

(** The driver: the output file holds the header row and then the records
    of the log; no other file changes; the generator's sequence is kept. *)
Lemma run_mc_chain x h beta N path w :
  let log := chain (Z.to_nat N) x h beta w in
  let res := run_mc x h beta N path w in
  files (snd res) !! path
    = Some (header_row :: map data_row (map step_record log)) /\
  (forall p, p <> path -> files (snd res) !! p = files w !! p) /\
  rng_draws (snd res) = rng_draws w /\
  (length log = Z.to_nat N -> fst res = Returned tt) /\
  (length log < Z.to_nat N -> exists e, fst res = Raised e).
Proof.
  intros log res. subst log res. rewrite run_mc_eq.
  set (w0 := set_files _ w).
  assert (Hrows : files w0 !! path = Some [header_row])
    by (subst w0; simpl; by rewrite lookup_insert_eq).
  destruct (mc_loop_chain (Z.to_nat N) x h beta path w0 _ Hrows)
    as (I1 & I2 & I3 & I4 & I5).
  unfold w0 in I1, I4, I5. rewrite chain_set_files in I1, I4, I5.
  fold w0 in I1, I4, I5.
  assert (Hother : forall p, p <> path ->
            files (snd (mc_loop (Z.to_nat N) x h beta path w0)) !! p
            = files w !! p).
  { intros p Hp. rewrite (I2 p Hp). subst w0. simpl.
    by rewrite lookup_insert_ne. }
  destruct (mc_loop (Z.to_nat N) x h beta path w0) as [[xn|e] wn];
    simpl in *.
  - split; [done |]. split; [done |]. split; [done |]. split; [done |].
    intros Hlt. destruct (I5 Hlt) as [e He]. discriminate.
  - split; [done |]. split; [done |]. split; [done |]. split; [| eauto].
    intros Hlen. specialize (I4 Hlen). discriminate.
Qed.

(** Each entry of the log was handed the state of the record before it
    (the initial state for the first), and holds what [metropolis]
    returned for that state. *)
Lemma chain_x_old n : forall x h beta w i s,
  chain n x h beta w !! i = Some s ->
  step_x_old s
    = current_state x (map step_record (take i (chain n x h beta w))) /\
  exists wi,
    fst (metropolis (step_x_old s) h beta wi) = Returned (step_record s) /\
    step_proposal s = fst (uniform_step (step_x_old s) h wi).
Proof.
  induction n as [|n IH]; intros x h beta w i s Hs; [done |].
  simpl in Hs |- *.
  destruct (metropolis x h beta w) as [[r|e] w'] eqn:E; [| done].
  destruct i as [|i]; simpl in Hs |- *.
  - injection Hs as <-. simpl. split; [done |].
    exists w. by rewrite E.
  - destruct (IH _ _ _ _ _ _ Hs) as [I1 I2].
    split; [| done]. by rewrite current_state_cons.
Qed.

(** C6: the file holds the records of the log; the step that produces
    record [i] of the log was handed the state of the most recent record
    before it, or [x0] when there is none: record [0] is computed from
    [x0], record [i + 1] from the state stored in record [i]; and after
    any number of completed iterations the loop's current state is the
    state of the most recent record. *)
Theorem state_continuity x0 h beta N path w :
  let log := chain (Z.to_nat N) x0 h beta w in
  let recs := map step_record log in
  let res := run_mc x0 h beta N path w in
  files (snd res) !! path = Some (header_row :: map data_row recs) /\
  (forall i s, log !! i = Some s ->
     step_x_old s = current_state x0 (take i recs) /\
     exists wi,
       fst (metropolis (step_x_old s) h beta wi) = Returned (step_record s)) /\
  (forall s, log !! 0 = Some s -> step_x_old s = x0) /\
  (forall i s r, log !! (S i) = Some s -> recs !! i = Some r ->
     step_x_old s = fst r) /\
  (forall n, length (chain n x0 h beta w) = n ->
     fst (mc_loop n x0 h beta path w)
     = Returned (current_state x0 (map step_record (chain n x0 h beta w)))).
Proof.
  intros log recs res.
  assert (Hold : forall i s, log !! i = Some s ->
            step_x_old s = current_state x0 (take i recs)).
  { intros i s Hs. subst recs. rewrite firstn_map.
    by destruct (chain_x_old _ _ _ _ _ _ _ Hs). }
  split; [apply run_mc_chain |]. split; [| split; [| split]].
  - intros i s Hs. split; [by apply Hold |].
    destruct (chain_x_old _ _ _ _ _ _ _ Hs) as (_ & wi & Hwi & _). eauto.
  - intros s Hs. by rewrite (Hold 0 s Hs).
  - intros i s r Hs Hr. rewrite (Hold (S i) s Hs).
    rewrite (take_S_r _ _ _ Hr). unfold current_state.
    rewrite map_app. simpl. apply List.last_last.
  - intros n Hn. by apply mc_loop_result.
Qed.

(** C3, as the code has it: with a negative iteration count the driver
    raises nothing and consumes no draw, and it does create or truncate
    the output file, which then holds the header row alone; [main] hands
    its parsed arguments to the driver unchecked. *)
Theorem run_mc_negative x0 h beta N path w :
  (N < 0)%Z ->
  main (Args x0 beta h N path) w = run_mc x0 h beta N path w /\
  exists w',
    run_mc x0 h beta N path w = (Returned tt, w') /\
    rng_pos w' = rng_pos w /\
    rng_draws w' = rng_draws w /\
    files w' !! path = Some [header_row] /\
    forall p, p <> path -> files w' !! p = files w !! p.
Proof.
  intros HN. split; [reflexivity |].
  rewrite run_mc_eq. replace (Z.to_nat N) with 0 by lia.
  eexists. split; [reflexivity |]. simpl.
  split; [done |]. split; [done |]. split.
  - by rewrite lookup_insert_eq.
  - intros p Hp. by rewrite lookup_insert_ne.
Qed.

(** C9: two runs with the same arguments, started from worlds with the
    same files and generator position whose generators hand out the same
    next [2 * N] draws, end alike: same outcome, same files (the same
    records, row for row) and same number of draws consumed. *)
Theorem run_mc_deterministic x0 h beta N path w1 w2 :
  same_draws (2 * Z.to_nat N) w1 w2 ->
  fst (run_mc x0 h beta N path w1) = fst (run_mc x0 h beta N path w2) /\
  files (snd (run_mc x0 h beta N path w1))
    = files (snd (run_mc x0 h beta N path w2)) /\
  rng_pos (snd (run_mc x0 h beta N path w1))
    = rng_pos (snd (run_mc x0 h beta N path w2)).
Proof.
  intros Hs. rewrite !run_mc_eq.
  set (v1 := set_files _ w1). set (v2 := set_files _ w2).
  assert (Hv : same_draws (2 * Z.to_nat N) v1 v2).
  { destruct Hs as (Hf & Hp & Hd). subst v1 v2.
    unfold same_draws; simpl. rewrite Hf.
    split; [done |]. split; [done |]. intros i Hi. apply Hd. lia. }
  destruct (mc_loop_same_draws (Z.to_nat N) x0 h beta path v1 v2 Hv)
    as (E1 & E2 & E3).
  destruct (mc_loop _ _ _ _ _ v1) as [[?|?] ?],
           (mc_loop _ _ _ _ _ v2) as [[?|?] ?];
    simpl in *; try discriminate; repeat split; try assumption; congruence.
Qed.
End GenericDriver.

(** ** The driver on examples over the real numbers *)

Section RealDriver.
Local Open Scope R_scope.
Implicit Types (x h beta : R) (w : world R) (path : string).

(** C3, as stated, fails: with [N = -1] and an output file left by an
    earlier run, the driver does not end in [InvalidParameter] with the
    world untouched; it returns normally and the file is truncated to the
    header row. *)
Lemma run_mc_negative_counterexample :
  run_mc 0 1 1 (-1) "out.csv" w_old <> (Raised InvalidParameter, w_old) /\
  fst (run_mc 0 1 1 (-1) "out.csv" w_old) = Returned tt /\
  files w_old !! "out.csv" = Some [header_row; data_row (1, 1%Z)] /\
  files (snd (run_mc 0 1 1 (-1) "out.csv" w_old)) !! "out.csv"
    = Some [header_row].
Proof.
  rewrite run_mc_eq. simpl.
  split; [discriminate |]. split; [reflexivity |].
  split; [apply lookup_singleton_eq | apply lookup_insert_eq].
Qed.

Lemma run_mc_negative_witness :
  main (Args 0 1 1 (-1) "out.csv") w_old = run_mc 0 1 1 (-1) "out.csv" w_old /\
  exists w',
    run_mc 0 1 1 (-1) "out.csv" w_old = (Returned tt, w') /\
    rng_pos w' = rng_pos w_old /\
    rng_draws w' = rng_draws w_old /\
    files w' !! "out.csv" = Some [header_row] /\
    forall p, p <> "out.csv" -> files w' !! p = files w_old !! p.
Proof. apply (run_mc_negative 0 1 1 (-1) "out.csv" w_old). lia. Defined.

Lemma run_mc_deterministic_witness :
  fst (run_mc 0 1 1 3 "out.csv" w_half)
    = fst (run_mc 0 1 1 3 "out.csv" w_half_six) /\
  files (snd (run_mc 0 1 1 3 "out.csv" w_half))
    = files (snd (run_mc 0 1 1 3 "out.csv" w_half_six)) /\
  rng_pos (snd (run_mc 0 1 1 3 "out.csv" w_half))
    = rng_pos (snd (run_mc 0 1 1 3 "out.csv" w_half_six)).
Proof.
  apply (run_mc_deterministic 0 1 1 3 "out.csv" w_half w_half_six).
  split; [reflexivity |]. split; [reflexivity |].
  intros i Hi. simpl in *.
  destruct (Nat.ltb_spec i 6) as [_ | Hge]; [reflexivity | lia].
Defined.
End RealDriver.

(** ** The step in binary64 *)

Section BinaryStep.
Import Float64.
Variable np_exp : spec_float -> spec_float.
Abbreviation B64 := (Number_binary64 np_exp).
Implicit Types (x h beta : spec_float) (w : world spec_float).

(** The proposal raises exactly when the width [h - (-h)] is not finite. *)
Lemma uniform_step_binary64 x h w :
  uniform_step (NT := B64) x h w =
    let range := SFsub prec emax h (SFopp h) in
    if isfinite range then
      (Returned
         (SFadd prec emax x
            (SFmul prec emax h
               (SFadd prec emax (SFopp h)
                  (SFmul prec emax range (rng_draws w (rng_pos w)))))),
       rng_skip 1 w)
    else (Raised OverflowError, w).
Proof.
  unfold uniform_step, np_random_uniform, bind; simpl.
  destruct (isfinite _); reflexivity.
Qed.

(** [x ** 2] raises nothing but [OverflowError], and only on a finite [x]
    whose square is beyond the largest float. *)
Lemma float_pow2_raises x e :
  float_pow2 x = Raised e ->
  e = OverflowError /\ isfinite x = true /\
  exists s, SFmul prec emax x x = S754_infinity s.
Proof.
  destruct x as [s | s | | s m ex]; unfold float_pow2; try discriminate.
  remember (SFmul prec emax (S754_finite s m ex) (S754_finite s m ex))
    as sq eqn:E.
  destruct sq as [? | s' | | ? ? ?]; try discriminate.
  intros Hr. injection Hr as Hr. subst e. eauto.
Qed.

(** C8, as the code has it: when the proposal and the two squares are
    computed without [OverflowError], the step returns a pair, either
    [(candidate, 1)] or [(x, 0)], whatever [np.exp] answers; if it answers
    [+inf] the step accepts on the test [1 < p], without an acceptance
    draw; if it answers a zero the step rejects, for every acceptance draw
    that is not below zero. *)
Theorem metropolis_total_without_overflow x h beta w cand w1 e_old e_new :
  uniform_step (NT := B64) x h w = (Returned cand, w1) ->
  H (NT := B64) cand = Returned e_new ->
  H (NT := B64) x = Returned e_old ->
  let p := np_exp (SFmul prec emax (SFopp beta) (SFsub prec emax e_new e_old)) in
  let u := rng_draws w1 (rng_pos w1) in
  exists r w',
    metropolis (NT := B64) x h beta w = (Returned r, w') /\
    (r = (cand, 1%Z) \/ r = (x, 0%Z)) /\
    (p = S754_infinity false -> r = (cand, 1%Z) /\ w' = w1) /\
    (forall s, p = S754_zero s -> SFltb u p = false -> r = (x, 0%Z)).
Proof.
  intros Hc Hn Ho p u.
  unfold metropolis, bind. rewrite Hc. unfold lift_outcome, delta_H.
  rewrite Hn, Ho. cbn [num_exp num_mul num_neg num_sub num_ltb num_one B64
                       Number_binary64].
  fold p. destruct (SFltb (SFone prec emax) p) eqn:E1.
  - eexists _, _. split; [reflexivity |]. split; [by left |]. split; [done |].
    intros s Hs. rewrite Hs in E1. discriminate.
  - unfold np_random_random, ret. cbn [fst snd]. fold u.
    destruct (SFltb u p) eqn:E2.
    + eexists _, _. split; [reflexivity |]. split; [by left |]. split.
      * intros Hp. rewrite Hp in E1. discriminate.
      * intros s _ Hs. discriminate.
    + eexists _, _. split; [reflexivity |]. split; [by right |]. split.
      * intros Hp. rewrite Hp in E1. discriminate.
      * done.
Qed.

(** Whatever the step raises is [OverflowError]. *)
Lemma metropolis_raises_only_overflow x h beta w e :
  fst (metropolis (NT := B64) x h beta w) = Raised e -> e = OverflowError.
Proof.
  unfold metropolis, bind. rewrite uniform_step_binary64. cbv zeta.
  destruct (isfinite _); [| by intros [= <-]].
  unfold lift_outcome, delta_H, H. cbn [num_sqr B64 Number_binary64].
  destruct (float_pow2 _) as [e_new | e1] eqn:E1.
  - destruct (float_pow2 x) as [e_old | e2] eqn:E2.
    + destruct (num_ltb _ _); [discriminate |].
      unfold np_random_random. cbn [fst snd].
      destruct (num_ltb _ _); discriminate.
    + intros [= <-]. by destruct (float_pow2_raises _ _ E2).
  - intros [= <-]. by destruct (float_pow2_raises _ _ E1).
Qed.

(** The step raises what the energy difference raises. *)
Lemma metropolis_raises x h beta w cand w1 e :
  uniform_step (NT := B64) x h w = (Returned cand, w1) ->
  delta_H (NT := B64) x cand = Raised e ->
  metropolis (NT := B64) x h beta w = (Raised e, w1).
Proof.
  intros Hc Hd. unfold metropolis, bind. rewrite Hc.
  unfold lift_outcome. by rewrite Hd.
Qed.
End BinaryStep.

Section BinaryClaims.
Import Float64.

Lemma metropolis_total_without_overflow_witness :
  let p := exp_at_zero
             (SFmul prec emax (SFopp f_one) (SFsub prec emax f_zero f_zero)) in
  let u := rng_draws (rng_skip 1 w_zero) (rng_pos (rng_skip 1 w_zero)) in
  exists r w',
    metropolis (NT := Number_binary64 exp_at_zero) f_zero f_zero f_one w_zero
      = (Returned r, w') /\
    (r = (f_zero, 1%Z) \/ r = (f_zero, 0%Z)) /\
    (p = S754_infinity false -> r = (f_zero, 1%Z) /\ w' = rng_skip 1 w_zero) /\
    (forall s, p = S754_zero s -> SFltb u p = false -> r = (f_zero, 0%Z)).
Proof.
  apply (metropolis_total_without_overflow exp_at_zero
           f_zero f_zero f_one w_zero f_zero (rng_skip 1 w_zero) f_zero f_zero).
  - reflexivity.
  - reflexivity.
  - reflexivity.
Defined.

(** C8, as stated, fails: [1e200] is a well-formed input, its square
    overflows, [1e200 ** 2] raises [OverflowError], and so does the step
    from [x = 1e200] with [h = 0.0] and [beta = 1.0], for whichever
    [np.exp]. *)
Lemma metropolis_overflow_counterexample :
  isfinite f_1e200 = true /\
  valid_binary prec emax f_1e200 = true /\
  H (NT := Number_binary64 exp_at_zero) f_1e200 = Raised OverflowError /\
  (forall np_exp,
     fst (metropolis (NT := Number_binary64 np_exp) f_1e200 f_zero f_one w_zero)
     = Raised OverflowError).
Proof.
  split; [reflexivity |]. split; [vm_compute; reflexivity |].
  split; [vm_compute; reflexivity |].
  intros np_exp.
  rewrite (metropolis_raises np_exp f_1e200 f_zero f_one w_zero
             f_1e200 (rng_skip 1 w_zero) OverflowError).
  - reflexivity.
  - vm_compute. reflexivity.
  - vm_compute. reflexivity.
Qed.
End BinaryClaims.


(** * Further properties of [mc.py] *)

(** ** The step and the loop, in every arithmetic *)

Section StepFootprint.
Context {T : Type} {NT : Number T}.
Implicit Types (x h beta : T) (w : world T) (path : string).

(** What a returned pair means: flag [1] comes with the proposal, flag [0]
    with the state the step was given. *)
Lemma metropolis_returned x h beta w x' a w' :
  metropolis x h beta w = (Returned (x', a), w') ->
  (a = 1%Z /\ fst (uniform_step x h w) = Returned x') \/
  (a = 0%Z /\ x' = x).
Proof.
  unfold metropolis, uniform_step, np_random_uniform, bind, ret, raise,
    lift_outcome, np_random_random; simpl.
  destruct (num_finite _); simpl; [| discriminate].
  destruct (delta_H _ _); simpl; [| discriminate].
  destruct (num_ltb num_one _); simpl.
  - intros [= <- <- <-]. by left.
  - destruct (num_ltb _ _); simpl; intros [= <- <- <-]; [by left | by right].
Qed.

(** X1: a step changes nothing of the world but the generator's position.
    Accepting costs one draw (test [1 < p] passed) or two, rejecting always
    costs two and returns the state unchanged; a step that raises has
    consumed no draw (the proposal raised) or one (the energy raised). *)
Theorem metropolis_footprint x h beta w :
  match metropolis x h beta w with
  | (Returned (x', a), w') =>
      (a = 1%Z /\ fst (uniform_step x h w) = Returned x' /\
       (w' = rng_skip 1 w \/ w' = rng_skip 2 w)) \/
      (a = 0%Z /\ x' = x /\ w' = rng_skip 2 w)
  | (Raised e, w') =>
      (w' = w /\ fst (uniform_step x h w) = Raised e) \/
      (w' = rng_skip 1 w /\
       exists cand, fst (uniform_step x h w) = Returned cand /\
                    delta_H x cand = Raised e)
  end.
Proof.
  unfold metropolis, uniform_step, np_random_uniform, bind, ret, raise,
    lift_outcome, np_random_random; simpl.
  destruct (num_finite _); simpl.
  - destruct (delta_H _ _) eqn:Ed; simpl.
    + destruct (num_ltb num_one _); simpl; [left; eauto |].
      destruct (num_ltb _ _); simpl; [left; eauto | right; eauto].
    + right. eauto.
  - left. split; [by destruct w | done].
Qed.

(** One turn of the loop: a step, a row appended, the rest of the loop. *)
Lemma mc_loop_S n x h beta path w :
  mc_loop (S n) x h beta path w
  = match metropolis x h beta w with
    | (Returned r, w1) =>
        mc_loop n (fst r) h beta path
          (set_files (alter (fun rows => rows ++ [data_row r]) path (files w1)) w1)
    | (Raised e, w1) => (Raised e, w1)
    end.
Proof.
  cbn [mc_loop]. unfold bind.
  destruct (metropolis x h beta w) as [[[x' a]|e] w1]; reflexivity.
Qed.

(** The loop's outcome does not depend on the files. *)
Lemma mc_loop_fst_set_files n : forall x h beta path g w,
  fst (mc_loop n x h beta path (set_files g w))
  = fst (mc_loop n x h beta path w).
Proof.
  induction n as [|n IH]; intros x h beta path g w; [done |].
  rewrite !mc_loop_S, metropolis_set_files.
  destruct (metropolis x h beta w) as [[r|e] w1]; [| done].
  cbn [fst snd]. by rewrite !IH.
Qed.

(** X2: running [n + m] iterations is running [n] and then [m] more from
    the state and the world the first [n] left; if one of the first [n]
    raises, that is the outcome. *)
Theorem mc_loop_add n m : forall x h beta path w,
  mc_loop (n + m) x h beta path w
  = match mc_loop n x h beta path w with
    | (Returned x', w') => mc_loop m x' h beta path w'
    | (Raised e, w') => (Raised e, w')
    end.
Proof.
  induction n as [|n IH]; intros x h beta path w; [done |].
  change (S n + m) with (S (n + m)). rewrite !mc_loop_S.
  destruct (metropolis x h beta w) as [[r|e] w1]; [apply IH | done].
Qed.

(** X3: whatever happens, the output file holds the header row and then one
    row per completed iteration, never more than [N]; the driver returns
    normally exactly when all [N] iterations completed, and raises exactly
    when fewer did. *)
Theorem run_mc_partial_output x0 h beta N path w :
  exists recs : list (T * Z),
    files (snd (run_mc x0 h beta N path w)) !! path
      = Some (header_row :: map data_row recs) /\
    length recs <= Z.to_nat N /\
    (fst (run_mc x0 h beta N path w) = Returned tt
       <-> length recs = Z.to_nat N) /\
    ((exists e, fst (run_mc x0 h beta N path w) = Raised e)
       <-> length recs < Z.to_nat N).
Proof.
  destruct (run_mc_chain x0 h beta N path w) as (I1 & _ & _ & I4 & I5).
  pose proof (chain_length (Z.to_nat N) x0 h beta w) as Hle.
  exists (map step_record (chain (Z.to_nat N) x0 h beta w)).
  rewrite length_map. split; [done |]. split; [done |]. split; split.
  - intros Hr. destruct (decide (length (chain (Z.to_nat N) x0 h beta w)
                                 = Z.to_nat N)) as [|Hne]; [done |].
    destruct I5 as [e He]; [lia |]. rewrite Hr in He. discriminate.
  - done.
  - intros [e He]. destruct (decide (length (chain (Z.to_nat N) x0 h beta w)
                                     < Z.to_nat N)) as [|Hge]; [done |].
    rewrite I4 in He by lia. discriminate.
  - done.
Qed.

(** X4: the driver overwrites: what the files held before has no effect on
    the outcome or on the final content of the output file, and every other
    file is left as it was. *)
Theorem run_mc_overwrites x0 h beta N path f w :
  fst (run_mc x0 h beta N path (set_files f w))
    = fst (run_mc x0 h beta N path w) /\
  files (snd (run_mc x0 h beta N path (set_files f w))) !! path
    = files (snd (run_mc x0 h beta N path w)) !! path /\
  forall p, p <> path ->
    files (snd (run_mc x0 h beta N path (set_files f w))) !! p = f !! p.
Proof.
  destruct (run_mc_chain x0 h beta N path (set_files f w)) as (I1 & I2 & _).
  destruct (run_mc_chain x0 h beta N path w) as (J1 & _).
  rewrite chain_set_files in I1.
  split; [| split; [by rewrite I1, J1 | exact I2]].
  rewrite !run_mc_eq.
  pose proof (mc_loop_fst_set_files (Z.to_nat N) x0 h beta path
                (<[path:=[header_row]]> f) w) as E1.
  pose proof (mc_loop_fst_set_files (Z.to_nat N) x0 h beta path
                (<[path:=[header_row]]> (files w)) w) as E2.
  change (set_files (<[path:=[header_row]]> (files (set_files f w)))
            (set_files f w))
    with (set_files (<[path:=[header_row]]> f) w).
  destruct (mc_loop _ _ _ _ _ (set_files (<[path:=[header_row]]> f) w))
    as [[?|?] ?],
    (mc_loop _ _ _ _ _ (set_files (<[path:=[header_row]]> (files w)) w))
    as [[?|?] ?]; simpl in *; congruence.
Qed.
End StepFootprint.

Section RecordFlags.
Context {T : Type} {NT : Number T}.
Implicit Types (x h beta : T) (w : world T) (path : string).

Lemma lookup_map {A B} (f : A -> B) (l : list A) : forall i,
  map f l !! i = f <$> (l !! i).
Proof. induction l as [|a l IH]; intros [|i]; simpl; auto. Qed.

Lemma chain_flags n : forall x h beta w i s,
  chain n x h beta w !! i = Some s ->
  (snd (step_record s) = 1%Z /\
   step_proposal s = Returned (fst (step_record s))) \/
  (snd (step_record s) = 0%Z /\ fst (step_record s) = step_x_old s).
Proof.
  induction n as [|n IH]; intros x h beta w i s Hs; [done |].
  simpl in Hs.
  destruct (metropolis x h beta w) as [[[x' a]|e] w'] eqn:E; [| done].
  destruct i as [|i]; simpl in Hs.
  - injection Hs as <-. simpl.
    destruct (metropolis_returned _ _ _ _ _ _ _ E) as [[-> Hp] | [-> ->]];
      [left | right]; done.
  - by apply (IH _ _ _ _ _ _ Hs).
Qed.

(** X5: in the output file every record has flag [1] or [0], and a record
    with flag [0] repeats the state of the record before it (the initial
    state, for the first record). *)
Theorem rejected_record_repeats x0 h beta N path w :
  exists recs : list (T * Z),
    files (snd (run_mc x0 h beta N path w)) !! path
      = Some (header_row :: map data_row recs) /\
    forall i r, recs !! i = Some r ->
      snd r = 1%Z \/
      (snd r = 0%Z /\ fst r = current_state x0 (take i recs)).
Proof.
  exists (map step_record (chain (Z.to_nat N) x0 h beta w)).
  split; [apply run_mc_chain |].
  intros i r Hr. rewrite lookup_map in Hr.
  destruct (chain (Z.to_nat N) x0 h beta w !! i) as [s|] eqn:Hs;
    [| discriminate].
  injection Hr as <-.
  destruct (chain_flags _ _ _ _ _ _ _ Hs) as [[H1 _] | [H0 Hx]];
    [by left | right].
  split; [done |]. rewrite Hx, firstn_map.
  by destruct (chain_x_old _ _ _ _ _ _ _ Hs).
Qed.
End RecordFlags.

(** * Properties of the array code of [fourier_orig.py] *)

(** ** [salt_pepper] *)

Section SaltPepper.
Local Open Scope R_scope.
Implicit Types (image U : list (list R)) (w : world R).

(** A row of [n] draws: it returns, [n] draws later. *)
Lemma random_row_spec n : forall w,
  exists us,
    random_row n w = (Returned us, rng_skip n w) /\
    length us = n /\
    Forall (fun u => exists k, u = rng_draws w k) us.
Proof.
  induction n as [|n IH]; intros w.
  - exists []. split; [by rewrite rng_skip_0 |]. split; [done | constructor].
  - cbn [random_row]. unfold bind at 1. unfold np_random_random at 1.
    destruct (IH (World (rng_draws w) (S (rng_pos w)) (files w)))
      as (us & E & Hlen & Hall).
    unfold bind. rewrite E. unfold ret.
    exists (rng_draws w (rng_pos w) :: us). split.
    + f_equal. unfold rng_skip; simpl. f_equal. lia.
    + split; [simpl; by rewrite Hlen |]. constructor; [eauto | done].
Qed.

(** [np.random.random(image.shape)] returns an array of the image's shape
    and consumes one draw per entry. *)
Lemma np_random_random_shape_spec image : forall w,
  exists U,
    np_random_random_shape image w = (Returned U, rng_skip (np_size image) w) /\
    Forall2 (fun us row => length us = length row) U image /\
    Forall (Forall (fun u => exists k, u = rng_draws w k)) U.
Proof.
  induction image as [|row rest IH]; intros w.
  - exists []. split; [by rewrite rng_skip_0 |]. split; constructor.
  - cbn [np_random_random_shape]. unfold bind at 1.
    destruct (random_row_spec (length row) w) as (us & E & Hlen & Hall).
    rewrite E. destruct (IH (rng_skip (length row) w)) as (U & E' & Hsh & HU).
    unfold bind. rewrite E'. unfold ret.
    exists (us :: U). split.
    + f_equal. unfold rng_skip; simpl. f_equal. lia.
    + split; constructor; done.
Qed.

Lemma salt_pepper_row r : forall (row us : list R),
  length us = length row ->
  where_row (map (fun u => Rltb (1 - r / 2) u) us)
            (map (fun v => v * 255) (map (fun _ => 1) row))
            (where_row (map (fun u => Rltb u (r / 2)) us)
                       (map (fun _ => 0) row) row)
  = zip_with (salt_pepper_entry r) row us.
Proof.
  induction row as [|v row IH]; intros [|u us] Hlen; try done.
  simpl in *. f_equal. apply IH. lia.
Qed.

Lemma salt_pepper_rows r : forall image U,
  Forall2 (fun us row => length us = length row) U image ->
  np_where (np_greater U (1 - r / 2))
           (np_times (np_ones_like image) 255)
           (np_where (np_less U (r / 2)) (np_zeros_like image) image)
  = zip_with (zip_with (salt_pepper_entry r)) image U.
Proof.
  intros image U Hsh. induction Hsh as [|us row U image Hlen _ IH]; [done |].
  simpl. f_equal; [by apply salt_pepper_row | apply IH].
Qed.

(** The function, in one pass. *)
Lemma salt_pepper_eq image r w :
  exists U,
    np_random_random_shape image w = (Returned U, rng_skip (np_size image) w) /\
    Forall2 (fun us row => length us = length row) U image /\
    Forall (Forall (fun u => exists k, u = rng_draws w k)) U /\
    salt_pepper image r w
    = (Returned (zip_with (zip_with
                   (salt_pepper_entry (if Rltb r 1 then r else 1))) image U),
       rng_skip (np_size image) w).
Proof.
  destruct (np_random_random_shape_spec image w) as (U & E & Hsh & HU).
  exists U. split; [done |]. split; [done |]. split; [done |].
  unfold salt_pepper, bind. rewrite E. unfold ret.
  by rewrite salt_pepper_rows.
Qed.

(** X11: with [r <= 0] no entry is changed: for unit draws
    [salt_pepper(image, r)] returns the image itself. *)
Theorem salt_pepper_no_noise image r w :
  r <= 0 ->
  unit_draws w ->
  salt_pepper image r w = (Returned image, rng_skip (np_size image) w).
Proof.
  intros Hr Hw.
  destruct (salt_pepper_eq image r w) as (U & _ & Hsh & HU & ->).
  f_equal. f_equal.
  replace (if Rltb r 1 then r else 1) with r
    by (destruct (Rltb r 1) eqn:E1; [done | apply Rltb_ge in E1; lra]).
  clear -Hr Hw Hsh HU.
  induction Hsh as [|us row U image Hlen _ IH]; [done |].
  apply Forall_cons in HU as [Hus HU].
  simpl. f_equal; [| by apply IH].
  clear -Hr Hw Hlen Hus. revert us Hlen Hus.
  induction row as [|v row IH]; intros [|u us] Hlen Hus; try done.
  apply Forall_cons in Hus as [[k ->] Hus].
  simpl in *. f_equal; [| apply IH; [lia | done]].
  unfold salt_pepper_entry. destruct (Hw k) as [H0 H1].
  replace (Rltb (1 - r / 2) _) with false
    by (symmetry; apply Rltb_ge; lra).
  replace (Rltb _ (r / 2)) with false
    by (symmetry; apply Rltb_ge; lra).
  done.
Qed.

Lemma salt_pepper_no_noise_witness :
  salt_pepper image_2x2 0 w_half
  = (Returned image_2x2, rng_skip (np_size image_2x2) w_half).
Proof.
  apply (salt_pepper_no_noise image_2x2 0 w_half).
  - lra.
  - apply w_half_unit.
Defined.
End SaltPepper.

(** ** The circular filter *)

Section CircularFilter.
Implicit Types (f : list (list Q)) (width height : nat).

Lemma for_range_S {S} (n : nat) (body : nat -> S -> option S) (s : S) :
  for_range (Datatypes.S n) body s
  = match for_range n body s with
    | Some s' => body n s'
    | None => None
    end.
Proof. unfold for_range. by rewrite seq_S, foldl_app. Qed.

Lemma shape2_replicate {A} width height (v : A) :
  shape2 (replicate width (replicate height v)) width height.
Proof.
  split; [apply length_replicate |].
  apply Forall_replicate, length_replicate.
Qed.

Lemma getitem2_replicate {A} width height (v : A) i j :
  (i < width)%nat -> (j < height)%nat ->
  getitem2 (replicate width (replicate height v)) i j = Some v.
Proof.
  intros Hi Hj. unfold getitem2.
  rewrite lookup_replicate_2 by done. by apply lookup_replicate_2.
Qed.

Lemma getitem2_outside {A} (a : list (list A)) width height i j :
  shape2 a width height ->
  ~ ((i < width)%nat /\ (j < height)%nat) ->
  getitem2 a i j = None.
Proof.
  intros [Hlen Hrows] Hout. unfold getitem2.
  destruct (a !! i) as [row|] eqn:Hrow; [| done].
  apply lookup_ge_None.
  rewrite (proj1 (Forall_lookup _ _) Hrows i row Hrow).
  apply lookup_lt_Some in Hrow. lia.
Qed.

(** An assignment inside the array succeeds, keeps the shape and changes
    that entry alone. *)
Lemma setitem2_spec {A} (a : list (list A)) width height i j (v : A) :
  shape2 a width height ->
  (i < width)%nat -> (j < height)%nat ->
  exists a',
    setitem2 a i j v = Some a' /\
    shape2 a' width height /\
    forall i' j',
      getitem2 a' i' j'
      = if decide (i' = i /\ j' = j) then Some v else getitem2 a i' j'.
Proof.
  intros [Hlen Hrows] Hi Hj. unfold setitem2.
  destruct (lookup_lt_is_Some_2 a i) as [row Hrow]; [lia |].
  pose proof (proj1 (Forall_lookup _ _) Hrows i row Hrow) as Hrl.
  simpl in Hrl. rewrite Hrow.
  destruct (decide (j < length row)%nat) as [_ | Hn]; [| lia].
  eexists. split; [reflexivity |]. split.
  - split; [by rewrite length_insert |].
    apply Forall_insert; [done |]. by rewrite length_insert.
  - intros i' j'. unfold getitem2.
    destruct (decide (i' = i)) as [-> | Hne].
    + rewrite list_lookup_insert_eq by lia. rewrite Hrow.
      destruct (decide (j' = j)) as [-> | Hnj].
      * rewrite list_lookup_insert_eq by lia.
        by destruct (decide (i = i /\ j = j)) as [_ | []].
      * rewrite list_lookup_insert_ne by done.
        by destruct (decide (i = i /\ j' = j)) as [[_ ?] | _].
    + rewrite list_lookup_insert_ne by done.
      by destruct (decide (i' = i /\ j' = j)) as [[? _] | _].
Qed.

Lemma if_decide_or {A} P1 P2 `{Decision P1, Decision P2} (x y : A) :
  (if decide P1 then x else if decide P2 then x else y)
  = if decide (P1 \/ P2) then x else y.
Proof. destruct (decide P1), (decide P2), (decide (P1 \/ P2)); tauto. Qed.

(** The inner loop, after [k] turns on row [i]. *)
Lemma inner_loop (mark : nat -> bool) width height i k : forall f0,
  shape2 f0 width height ->
  (i < width)%nat -> (k <= height)%nat ->
  exists f,
    for_range k (fun j f => if mark j then setitem2 f i j 1%Q else Some f) f0
      = Some f /\
    shape2 f width height /\
    forall i' j',
      getitem2 f i' j'
      = if decide (i' = i /\ (j' < k)%nat /\ mark j' = true)
        then Some 1%Q else getitem2 f0 i' j'.
Proof.
  induction k as [|k IH]; intros f0 Hsh Hi Hk.
  - exists f0. split; [done |]. split; [done |]. intros i' j'.
    rewrite decide_False; [done | lia].
  - destruct (IH f0 Hsh Hi) as (f & E & Hf & Hget); [lia |].
    rewrite for_range_S, E. destruct (mark k) eqn:Hm.
    + destruct (setitem2_spec f width height i k 1%Q Hf Hi)
        as (f' & E' & Hf' & Hget'); [lia |].
      exists f'. split; [done |]. split; [done |]. intros i' j'.
      rewrite Hget', Hget, if_decide_or. apply decide_ext.
      split.
      * intros [[-> ->] | (-> & Hj & Hmj)]; (split; [done |]);
          (split; [lia | done]).
      * intros (-> & Hj & Hmj).
        destruct (decide (j' = k)) as [-> | Hne]; [by left | right].
        split; [done |]. split; [lia | done].
    + exists f. split; [done |]. split; [done |]. intros i' j'.
      rewrite Hget. apply decide_ext. split.
      * intros (-> & Hj & Hmj). split; [done |]. split; [lia | done].
      * intros (-> & Hj & Hmj). split; [done |]. split; [| done].
        destruct (decide (j' = k)) as [-> | Hne]; [congruence | lia].
Qed.

(** The outer loop, after [k] rows. *)
Lemma outer_loop (mark : nat -> nat -> bool) width height k : forall f0,
  shape2 f0 width height ->
  (k <= width)%nat ->
  exists f,
    for_range k (fun i f =>
      for_range height (fun j f =>
        if mark i j then setitem2 f i j 1%Q else Some f) f) f0 = Some f /\
    shape2 f width height /\
    forall i' j',
      getitem2 f i' j'
      = if decide ((i' < k)%nat /\ (j' < height)%nat /\ mark i' j' = true)
        then Some 1%Q else getitem2 f0 i' j'.
Proof.
  induction k as [|k IH]; intros f0 Hsh Hk.
  - exists f0. split; [done |]. split; [done |]. intros i' j'.
    rewrite decide_False; [done | lia].
  - destruct (IH f0 Hsh) as (f & E & Hf & Hget); [lia |].
    rewrite for_range_S, E.
    destruct (inner_loop (mark k) width height k height f Hf)
      as (f' & E' & Hf' & Hget'); [lia | lia |].
    exists f'. split; [done |]. split; [done |]. intros i' j'.
    rewrite Hget', Hget, if_decide_or. apply decide_ext. split.
    + intros [(-> & Hj & Hmj) | (Hi' & Hj & Hmj)];
        (split; [lia |]); (split; [lia | done]).
    + intros (Hi' & Hj & Hmj).
      destruct (decide (i' = k)) as [-> | Hne]; [by left | right].
      split; [lia |]. split; [lia | done].
Qed.

(** The loops never assign outside the array; they leave an array of the
    image's shape whose entry [(i, j)] is [1] where the test of line 31
    holds and [0] elsewhere. *)
Lemma circular_filter_entries width height :
  exists f,
    circular_filter width height = Some f /\
    shape2 f width height /\
    forall i j, (i < width)%nat -> (j < height)%nat ->
      getitem2 f i j
      = Some (if outside_radius (centre width) (centre height) i j
              then 1%Q else 0%Q).
Proof.
  unfold circular_filter.
  destruct (outer_loop (outside_radius (centre width) (centre height))
              width height width
              (replicate width (replicate height 0%Q)))
    as (f & E & Hf & Hget); [apply shape2_replicate | lia |].
  exists f. split; [exact E |]. split; [done |].
  intros i j Hi Hj. rewrite Hget, getitem2_replicate by done.
  destruct (outside_radius _ _ i j).
  - by rewrite decide_True.
  - rewrite decide_False; [done |]. by intros (_ & _ & ?).
Qed.
(** The test of line 31 on integers: with the centre at half the width and
    half the height, [(i, j)] is outside the radius exactly when
    [(2 i - width)^2 + (2 j - height)^2] exceeds [200^2]. *)
Lemma outside_radius_Z width height i j :
  outside_radius (centre width) (centre height) i j = true <->
  (200 ^ 2 < (2 * Z.of_nat i - Z.of_nat width) ^ 2
             + (2 * Z.of_nat j - Z.of_nat height) ^ 2)%Z.
Proof.
  unfold outside_radius. rewrite negb_true_iff, <- not_true_iff_false,
    Qle_bool_iff.
  unfold centre, filter_radius, Qle, Qdiv, Qminus, Qplus, Qopp, Qmult, Qinv,
    inject_Z, Qpower, Qpower_positive, pow_pos; simpl.
  lia.
Qed.

Lemma getitem2_one_minus f i j :
  getitem2 (one_minus f) i j = (fun v => (1 - v)%Q) <$> getitem2 f i j.
Proof.
  unfold getitem2, one_minus. rewrite lookup_map.
  destruct (f !! i) as [row|]; simpl; [apply lookup_map | done].
Qed.

Lemma shape2_one_minus f width height :
  shape2 f width height -> shape2 (one_minus f) width height.
Proof.
  intros [Hlen Hrows]. split; [unfold one_minus; by rewrite length_map |].
  unfold one_minus. apply Forall_forall. intros row Hin.
  apply list_elem_of_In, in_map_iff in Hin as (row0 & <- & Hin).
  rewrite length_map.
  by apply (proj1 (Forall_forall _ _) Hrows), list_elem_of_In.
Qed.

(** Two arrays of one shape with the same entries are the same array. *)
Lemma array_ext {A} (a b : list (list A)) width height :
  shape2 a width height -> shape2 b width height ->
  (forall i j, (i < width)%nat -> (j < height)%nat ->
     getitem2 a i j = getitem2 b i j) ->
  a = b.
Proof.
  intros [Ha Hra] [Hb Hrb] Hget.
  apply list_eq_same_length with width; [done | done |].
  intros i ra rb Hi Hra' Hrb'.
  pose proof (proj1 (Forall_lookup _ _) Hra i ra Hra') as Hla.
  pose proof (proj1 (Forall_lookup _ _) Hrb i rb Hrb') as Hlb.
  simpl in Hla, Hlb.
  apply list_eq_same_length with height; [done | done |].
  intros j x y Hj Hx Hy.
  specialize (Hget i j Hi Hj). unfold getitem2 in Hget.
  rewrite Hra', Hrb' in Hget. congruence.
Qed.

(** X12: the loops of lines 29 to 32 never assign outside the array.  They
    leave an array of the image's shape in which entry [(i, j)] is [1] when
    [(2 i - width)^2 + (2 j - height)^2 > 200^2], that is when [(i, j)] is
    more than [100] away from the centre, and [0] otherwise. *)
Theorem circular_filter_mask width height :
  exists f,
    circular_filter width height = Some f /\
    shape2 f width height /\
    forall i j,
      if decide ((i < width)%nat /\ (j < height)%nat) then
        (getitem2 f i j = Some 1%Q /\
         (200 ^ 2 < (2 * Z.of_nat i - Z.of_nat width) ^ 2
                    + (2 * Z.of_nat j - Z.of_nat height) ^ 2)%Z) \/
        (getitem2 f i j = Some 0%Q /\
         ((2 * Z.of_nat i - Z.of_nat width) ^ 2
          + (2 * Z.of_nat j - Z.of_nat height) ^ 2 <= 200 ^ 2)%Z)
      else getitem2 f i j = None.
Proof.
  destruct (circular_filter_entries width height) as (f & E & Hf & Hget).
  exists f. split; [done |]. split; [done |]. intros i j.
  destruct (decide _) as [[Hi Hj] | Hout];
    [| by apply (getitem2_outside f width height)].
  rewrite (Hget i j Hi Hj).
  pose proof (outside_radius_Z width height i j) as Hz.
  destruct (outside_radius _ _ i j).
  - left. split; [done | by apply Hz].
  - right. split; [done |].
    destruct (Z_lt_le_dec (200 ^ 2)
                ((2 * Z.of_nat i - Z.of_nat width) ^ 2
                 + (2 * Z.of_nat j - Z.of_nat height) ^ 2)) as [Hlt | Hle];
      [| done].
    apply Hz in Hlt. discriminate.
Qed.

(** X13: after [filter = 1 - filter] (line 35) the array is the low-pass
    mask: [1] exactly at the entries within [100] of the centre, [0] at the
    others. *)
Theorem inverted_filter_mask width height :
  exists f,
    inverted_filter width height = Some f /\
    shape2 f width height /\
    forall i j, (i < width)%nat -> (j < height)%nat ->
      (getitem2 f i j = Some 1%Q /\
       ((2 * Z.of_nat i - Z.of_nat width) ^ 2
        + (2 * Z.of_nat j - Z.of_nat height) ^ 2 <= 200 ^ 2)%Z) \/
      (getitem2 f i j = Some 0%Q /\
       (200 ^ 2 < (2 * Z.of_nat i - Z.of_nat width) ^ 2
                  + (2 * Z.of_nat j - Z.of_nat height) ^ 2)%Z).
Proof.
  destruct (circular_filter_entries width height) as (f & E & Hf & Hget).
  exists (one_minus f). unfold inverted_filter. rewrite E.
  split; [done |]. split; [by apply shape2_one_minus |].
  intros i j Hi Hj. rewrite getitem2_one_minus, (Hget i j Hi Hj).
  pose proof (outside_radius_Z width height i j) as Hz.
  destruct (outside_radius _ _ i j).
  - right. split; [done | by apply Hz].
  - left. split; [done |].
    destruct (Z_lt_le_dec (200 ^ 2)
                ((2 * Z.of_nat i - Z.of_nat width) ^ 2
                 + (2 * Z.of_nat j - Z.of_nat height) ^ 2)) as [Hlt | Hle];
      [| done].
    apply Hz in Hlt. discriminate.
Qed.

(** X14: the array the script calls [lowpass_filter] (line 95) is one minus
    the low-pass mask of line 35, so it is again the array the loops
    built: [1] outside the radius, a high-pass mask. *)
Theorem lowpass_filter_is_circular_filter width height :
  lowpass_filter width height = circular_filter width height.
Proof.
  destruct (circular_filter_entries width height) as (f & E & Hf & Hget).
  unfold lowpass_filter, inverted_filter. rewrite E. simpl. f_equal.
  apply (array_ext _ _ width height);
    [by do 2 apply shape2_one_minus | done |].
  intros i j Hi Hj. rewrite !getitem2_one_minus, (Hget i j Hi Hj).
  by destruct (outside_radius _ _ i j).
Qed.

(** X15: the mask is symmetric about the centre along each axis: entry
    [(i, j)] equals entry [(width - i, j)] for [0 < i < width], and entry
    [(i, height - j)] for [0 < j < height]. *)
Theorem circular_filter_symmetric width height :
  exists f,
    circular_filter width height = Some f /\
    (forall i j, (0 < i < width)%nat -> (j < height)%nat ->
       getitem2 f (width - i) j = getitem2 f i j) /\
    (forall i j, (i < width)%nat -> (0 < j < height)%nat ->
       getitem2 f i (height - j) = getitem2 f i j).
Proof.
  destruct (circular_filter_entries width height) as (f & E & Hf & Hget).
  exists f. split; [done |].
  assert (Hbool : forall b1 b2 : bool,
            (b1 = true <-> b2 = true) -> b1 = b2).
  { intros [] [] [? ?]; auto. symmetry; auto. }
  split.
  - intros i j Hi Hj. rewrite !Hget by lia.
    assert (Hs : outside_radius (centre width) (centre height) (width - i) j
                 = outside_radius (centre width) (centre height) i j).
    { apply Hbool. rewrite !outside_radius_Z.
      replace (2 * Z.of_nat (width - i) - Z.of_nat width)%Z
        with (- (2 * Z.of_nat i - Z.of_nat width))%Z by lia.
      by rewrite Z.pow_opp_even by (by exists 1%Z). }
    by rewrite Hs.
  - intros i j Hi Hj. rewrite !Hget by lia.
    assert (Hs : outside_radius (centre width) (centre height) i (height - j)
                 = outside_radius (centre width) (centre height) i j).
    { apply Hbool. rewrite !outside_radius_Z.
      replace (2 * Z.of_nat (height - j) - Z.of_nat height)%Z
        with (- (2 * Z.of_nat j - Z.of_nat height))%Z by lia.
      by rewrite Z.pow_opp_even by (by exists 1%Z). }
    by rewrite Hs.
Qed.
End CircularFilter.

(** * Further properties in binary64 *)

Section BinaryDriver.
Import Float64.
Variable np_exp : spec_float -> spec_float.
Implicit Types (x h beta : spec_float) (w : world spec_float).

(** A step from a state whose square overflows raises [OverflowError],
    after at most one draw. *)
Lemma metropolis_overflow_state x h beta w e :
  float_pow2 x = Raised e ->
  exists k, (k <= 1)%nat /\
    metropolis (NT := Number_binary64 np_exp) x h beta w
    = (Raised OverflowError, rng_skip k w).
Proof.
  intros Hx. unfold metropolis, bind. rewrite uniform_step_binary64. cbv zeta.
  destruct (isfinite _).
  - exists 1%nat. split; [lia |].
    unfold lift_outcome, delta_H, H. cbn [num_sqr Number_binary64].
    rewrite Hx. destruct (float_pow2_raises _ _ Hx) as [-> _].
    set (cand := SFadd prec emax x _).
    destruct (float_pow2 cand) as [e_new | e1] eqn:E1; [done |].
    by destruct (float_pow2_raises _ _ E1) as [-> _].
  - exists 0%nat. split; [lia | by rewrite rng_skip_0].
Qed.

(** X16: in binary64, a run of at least one iteration from an initial
    state whose square overflows raises [OverflowError] at the first step:
    the output file is left with the header row alone and at most one draw
    is consumed. *)
Theorem run_mc_overflow_at_start x0 h beta N path w e :
  float_pow2 x0 = Raised e ->
  (0 < N)%Z ->
  fst (run_mc (NT := Number_binary64 np_exp) x0 h beta N path w)
    = Raised OverflowError /\
  files (snd (run_mc (NT := Number_binary64 np_exp) x0 h beta N path w)) !! path
    = Some [header_row] /\
  (rng_pos (snd (run_mc (NT := Number_binary64 np_exp) x0 h beta N path w))
     <= rng_pos w + 1)%nat.
Proof.
  intros Hx HN. rewrite run_mc_eq.
  destruct (Z.to_nat N) as [|n] eqn:En; [lia |].
  rewrite mc_loop_S.
  destruct (metropolis_overflow_state x0 h beta
              (set_files (<[path:=[header_row]]> (files w)) w) e Hx)
    as (k & Hk & ->).
  simpl. split; [done |]. split; [apply lookup_insert_eq | lia].
Qed.

End BinaryDriver.

Section BinaryDriverWitnesses.
Import Float64.

Lemma run_mc_overflow_at_start_witness :
  fst (run_mc (NT := Number_binary64 exp_at_zero)
         f_1e200 f_one f_one 5 "out.csv" w_zero)
    = Raised OverflowError /\
  files (snd (run_mc (NT := Number_binary64 exp_at_zero)
                f_1e200 f_one f_one 5 "out.csv" w_zero)) !! "out.csv"
    = Some [header_row] /\
  (rng_pos (snd (run_mc (NT := Number_binary64 exp_at_zero)
                   f_1e200 f_one f_one 5 "out.csv" w_zero))
     <= rng_pos w_zero + 1)%nat.
Proof.
  apply (run_mc_overflow_at_start exp_at_zero f_1e200 f_one f_one 5
           "out.csv" w_zero OverflowError).
  - vm_compute. reflexivity.
  - lia.
Defined.

End BinaryDriverWitnesses.

(** * The step and the driver on Python floats *)

(** ** The decision, in every arithmetic *)

Section StepDecision.
Context {T : Type} {NT : Number T}.
Implicit Types (x h beta : T) (w : world T).

(** C1: a Metropolis step draws the candidate and computes
    [p = exp (- beta * delta_H x candidate)]; if the proposal or the energy
    difference raises, the step raises the same; otherwise, if [1 < p] it
    returns [(candidate, 1)] in the world the proposal left, so that no
    acceptance draw is consumed, and if not it consumes one draw [u] and
    returns [(candidate, 1)] when [u < p] and the unchanged [(x, 0)] when
    not. *)
Theorem metropolis_decision x h beta w :
  match uniform_step x h w with
  | (Raised e, w1) => metropolis x h beta w = (Raised e, w1)
  | (Returned cand, w1) =>
      match delta_H x cand with
      | Raised e => metropolis x h beta w = (Raised e, w1)
      | Returned d =>
          let p := num_exp (- beta * d)%num in
          if (num_one <? p)%num
          then metropolis x h beta w = (Returned (cand, 1%Z), w1)
          else
            exists u w2,
              np_random_random w1 = (Returned u, w2) /\
              metropolis x h beta w
              = (Returned (if (u <? p)%num then (cand, 1%Z) else (x, 0%Z)),
                 w2)
      end
  end.
Proof.
  unfold metropolis, bind.
  destruct (uniform_step x h w) as [[cand|e] w1]; [| done].
  unfold lift_outcome. destruct (delta_H x cand) as [d|e]; [| done].
  cbv zeta. destruct (num_ltb num_one _); [done |].
  eexists _, _. split; [reflexivity |].
  unfold np_random_random. cbn [fst snd].
  by destruct (num_ltb _ _).
Qed.

(** A step consumes at most two draws, and at least one when it returns. *)
Lemma metropolis_skip x h beta w :
  exists k, (k <= 2)%nat /\
    snd (metropolis x h beta w) = rng_skip k w /\
    (forall r, fst (metropolis x h beta w) = Returned r -> (1 <= k)%nat).
Proof.
  unfold metropolis, uniform_step, np_random_uniform, bind, ret, raise,
    lift_outcome, np_random_random; simpl.
  destruct (num_finite _); simpl.
  - destruct (delta_H _ _); simpl.
    + destruct (num_ltb num_one _); simpl.
      * exists 1%nat. split; [lia |]. split; [done | lia].
      * destruct (num_ltb _ _); simpl; exists 2%nat;
          (split; [lia |]); (split; [done | lia]).
    + exists 1%nat. split; [lia |]. split; [done | lia].
  - exists 0%nat. split; [lia |]. split; [by rewrite rng_skip_0 | done].
Qed.

Lemma mc_loop_draws n : forall x h beta path w,
  (rng_pos (snd (mc_loop n x h beta path w)) <= rng_pos w + 2 * n)%nat /\
  (forall xn, fst (mc_loop n x h beta path w) = Returned xn ->
     (rng_pos w + n <= rng_pos (snd (mc_loop n x h beta path w)))%nat).
Proof.
  induction n as [|n IH]; intros x h beta path w; [simpl; split; [lia | intros; lia] |].
  rewrite mc_loop_S.
  destruct (metropolis_skip x h beta w) as (k & Hk & Hw & Hret).
  destruct (metropolis x h beta w) as [[r|e] w1]; simpl in Hw; subst w1.
  - specialize (Hret r eq_refl).
    destruct (IH (fst r) h beta path
                (set_files (alter (fun rows => rows ++ [data_row r]) path
                              (files (rng_skip k w))) (rng_skip k w)))
      as [I1 I2].
    simpl in I1, I2 |- *. split; [lia |].
    intros xn Hxn. specialize (I2 xn Hxn). lia.
  - simpl. split; [lia | discriminate].
Qed.

(** X8: a run of [N] iterations never consumes more than [2 * N] draws of
    the generator (none for [N <= 0]), and a run that returns normally has
    consumed at least [N]. *)
Theorem run_mc_draws x0 h beta N path w :
  (rng_pos (snd (run_mc x0 h beta N path w)) <= rng_pos w + 2 * Z.to_nat N)%nat /\
  (fst (run_mc x0 h beta N path w) = Returned tt ->
   (rng_pos w + Z.to_nat N <= rng_pos (snd (run_mc x0 h beta N path w)))%nat).
Proof.
  rewrite run_mc_eq.
  destruct (mc_loop_draws (Z.to_nat N) x0 h beta path
              (set_files (<[path:=[header_row]]> (files w)) w)) as [I1 I2].
  destruct (mc_loop _ _ _ _ _ _) as [[xn|e] wn]; simpl in *.
  - split; [lia |]. intros _. by apply (I2 xn).
  - split; [lia | discriminate].
Qed.


(** Each entry of the log holds what [metropolis] returned, in a world with
    the generator's sequence, for the state the entry records. *)
Lemma chain_entry n : forall x h beta w i s,
  chain n x h beta w !! i = Some s ->
  exists wi,
    rng_draws wi = rng_draws w /\
    fst (metropolis (step_x_old s) h beta wi) = Returned (step_record s) /\
    step_proposal s = fst (uniform_step (step_x_old s) h wi).
Proof.
  induction n as [|n IH]; intros x h beta w i s Hs; [done |].
  simpl in Hs.
  pose proof (metropolis_draws x h beta w) as Hd.
  destruct (metropolis x h beta w) as [[r|e] w'] eqn:E; [| done].
  destruct i as [|i]; simpl in Hs.
  - injection Hs as <-. exists w. simpl. by rewrite E.
  - destruct (IH _ _ _ _ _ _ Hs) as (wi & Hwi & Hm & Hp).
    exists wi. split; [| done]. simpl in Hd. by rewrite Hwi.
Qed.
End StepDecision.

(** ** Rounding in binary64 *)

Section RoundingFacts.
Import Float64.

Lemma shr_1_nonneg mrs : (0 <= shr_m mrs)%Z -> (0 <= shr_m (shr_1 mrs))%Z.
Proof.
  destruct mrs as [m r s]. simpl.
  destruct m as [|p|p]; [done | | lia].
  intros _. destruct p; simpl; lia.
Qed.

Lemma iter_pos_shr_1_nonneg p : forall mrs,
  (0 <= shr_m mrs)%Z -> (0 <= shr_m (SpecFloat.iter_pos shr_1 p mrs))%Z.
Proof.
  induction p as [p IH | p IH |]; intros mrs Hm; simpl.
  - by apply IH, IH, shr_1_nonneg.
  - by apply IH, IH.
  - by apply shr_1_nonneg.
Qed.

Lemma shr_fexp_nonneg m e l :
  (0 <= m)%Z -> (0 <= shr_m (fst (shr_fexp prec emax m e l)))%Z.
Proof.
  intros Hm. unfold shr_fexp, shr.
  assert (H0 : (0 <= shr_m (shr_record_of_loc m l))%Z)
    by (destruct l as [|[]]; exact Hm).
  destruct (_ - e)%Z; simpl; [done | | done].
  by apply iter_pos_shr_1_nonneg.
Qed.

Lemma round_nearest_even_nonneg m l :
  (0 <= m)%Z -> (0 <= round_nearest_even m l)%Z.
Proof.
  intros Hm. destruct l as [|[]]; simpl; try lia.
  destruct (Z.even m); lia.
Qed.

(** Rounding a positive integer gives a zero, a finite number or an
    infinity of the sign asked for, never [nan]. *)
Lemma binary_round_aux_sign s m e l :
  match binary_round_aux prec emax s (Z.pos m) e l with
  | S754_zero s' | S754_finite s' _ _ | S754_infinity s' => s' = s
  | S754_nan => False
  end.
Proof.
  unfold binary_round_aux.
  pose proof (shr_fexp_nonneg (Z.pos m) e l ltac:(lia)) as H1.
  destruct (shr_fexp prec emax (Z.pos m) e l) as [mrs' e'].
  simpl in H1.
  pose proof (shr_fexp_nonneg
                (round_nearest_even (shr_m mrs') (loc_of_shr_record mrs'))
                e' loc_Exact (round_nearest_even_nonneg _ _ H1)) as H2.
  destruct (shr_fexp prec emax _ e' loc_Exact) as [mrs'' e''].
  simpl in H2.
  destruct (shr_m mrs'') as [|p|p]; [done | | lia].
  by destruct (Z.leb e'' _).
Qed.

(** The square Python computes is [nan] only for [nan], and otherwise a
    zero, a finite number or an infinity that is not negative. *)
Lemma float_pow2_returned x e :
  float_pow2 x = Returned e ->
  match e with
  | S754_zero s | S754_finite s _ _ | S754_infinity s => s = false
  | S754_nan => x = S754_nan
  end.
Proof.
  destruct x as [s | s | | s m ex]; simpl; try by intros [= <-].
  pose proof (binary_round_aux_sign (xorb s s) (m * m) (ex + ex) loc_Exact)
    as Hs.
  destruct (binary_round_aux prec emax _ _ _ _) as [s' | s' | | s' m' e'];
    try done; intros [= <-]; rewrite Hs; by destruct s.
Qed.

(** The square of a finite number, when it is returned, is finite. *)
Lemma float_pow2_finite x e :
  float_pow2 x = Returned e -> isfinite x = true -> isfinite e = true.
Proof.
  destruct x as [s | s | | s m ex]; simpl; try done; [by intros [= <-] |].
  pose proof (binary_round_aux_sign (xorb s s) (m * m) (ex + ex) loc_Exact)
    as Hs.
  destruct (binary_round_aux prec emax _ _ _ _) as [s' | s' | | s' m' e'];
    try done; by intros [= <-].
Qed.

(** A finite number minus itself is [0.0]. *)
Lemma SFsub_diag e :
  isfinite e = true -> SFsub prec emax e e = S754_zero false.
Proof.
  destruct e as [s | s | | s m ex]; try done; simpl.
  - by destruct s.
  - by rewrite Z.sub_diag.
Qed.

(** The product of a zero and a finite number is a zero. *)
Lemma SFmul_zero_l z d :
  is_zero z = true -> isfinite d = true ->
  is_zero (SFmul prec emax z d) = true.
Proof. destruct z, d; done. Qed.

Lemma SFmul_zero_r b z :
  isfinite b = true -> is_zero z = true ->
  is_zero (SFmul prec emax b z) = true.
Proof. destruct b, z; done. Qed.

Lemma is_zero_opp z : is_zero (SFopp z) = is_zero z.
Proof. by destruct z. Qed.

Lemma isfinite_opp z : isfinite (SFopp z) = isfinite z.
Proof. by destruct z. Qed.



End RoundingFacts.

(** ** The proposal and the step in binary64 *)

Section BinaryProposal.
Import Float64.
Variable np_exp : spec_float -> spec_float.
Implicit Types (x h beta : spec_float) (w : world spec_float).

Lemma SFone_eq : SFone prec emax = f_one.
Proof. reflexivity. Qed.


Lemma is_unit_draw_lt u : is_unit_draw u = true -> SFltb u f_one = true.
Proof. destruct u as [[] | | | [] m e]; done. Qed.

(** With step size zero the proposal is the current state; only [-0.0]
    proposed with [h = 0.0] comes back as [0.0]. *)
Lemma proposal_h_zero x h u :
  is_zero h = true -> is_unit_draw u = true ->
  let U := SFadd prec emax (SFopp h)
             (SFmul prec emax (SFsub prec emax h (SFopp h)) u) in
  let cand := SFadd prec emax x (SFmul prec emax h U) in
  isfinite (SFsub prec emax h (SFopp h)) = true /\
  (cand = x \/ (x = S754_zero true /\ cand = S754_zero false)).
Proof.
  destruct h as [sh | | |]; try done.
  destruct u as [[] | | | [] mu eu]; try done; intros _ _;
    destruct sh, x as [[] | [] | | [] mx ex]; simpl; auto.
Qed.


(** The world a returned proposal leaves is one draw on. *)
Lemma uniform_step_returned x h w cand w1 :
  uniform_step (NT := Number_binary64 np_exp) x h w = (Returned cand, w1) ->
  w1 = rng_skip 1 w.
Proof.
  rewrite uniform_step_binary64. cbv zeta.
  destruct (isfinite _); [by intros [= _ <-] | discriminate].
Qed.

(** When [np.exp] answers exactly [1.0], the test [1 < p] fails, the
    acceptance draw is consumed and, being below [1.0], accepts. *)
Lemma metropolis_p_one x h beta w cand w1 d :
  uniform_step (NT := Number_binary64 np_exp) x h w = (Returned cand, w1) ->
  delta_H (NT := Number_binary64 np_exp) x cand = Returned d ->
  np_exp (SFmul prec emax (SFopp beta) d) = f_one ->
  SFltb (rng_draws w1 (rng_pos w1)) f_one = true ->
  metropolis (NT := Number_binary64 np_exp) x h beta w
  = (Returned (cand, 1%Z), rng_skip 1 w1).
Proof.
  intros Hc Hd Hp Hu. unfold metropolis, bind. rewrite Hc.
  unfold lift_outcome. rewrite Hd.
  cbn [num_exp num_mul num_neg num_ltb num_one Number_binary64].
  rewrite Hp, SFone_eq.
  change (SFltb f_one f_one) with false. cbv iota.
  unfold np_random_random. cbn [fst snd]. by rewrite Hu.
Qed.


End BinaryProposal.

(** ** Acceptance in binary64 *)

Section BinaryAcceptance.
Import Float64.
Variable np_exp : spec_float -> spec_float.
Implicit Types (x h beta : spec_float) (w : world spec_float).


(** A logged step with a finite energy difference at a zero [beta] was
    accepted. *)
Lemma chain_beta_zero n x0 h beta w i s :
  is_zero beta = true ->
  (forall sg, np_exp (S754_zero sg) = f_one) ->
  (forall k, SFltb (rng_draws w k) f_one = true) ->
  chain (NT := Number_binary64 np_exp) n x0 h beta w !! i = Some s ->
  energy_finite np_exp s = true ->
  snd (step_record s) = 1%Z /\
  step_proposal s = Returned (fst (step_record s)).
Proof.
  intros Hb Hexp Hu Hs Hfin.
  destruct (chain_entry (NT := Number_binary64 np_exp) n x0 h beta w i s Hs) as (wi & Hwi & Hm & Hp).
  unfold energy_finite in Hfin.
  destruct (step_proposal s) as [cand|] eqn:Ec; [| discriminate].
  destruct (delta_H (step_x_old s) cand) as [d|] eqn:Ed; [| discriminate].
  destruct (uniform_step (step_x_old s) h wi) as [o w1] eqn:Eu.
  simpl in Hp. subst o.
  assert (Ht : is_zero (SFmul prec emax (SFopp beta) d) = true)
    by (apply SFmul_zero_l; [by rewrite is_zero_opp | done]).
  rewrite (metropolis_p_one np_exp (step_x_old s) h beta wi cand w1 d) in Hm;
    try done.
  - simpl in Hm. injection Hm as <-. done.
  - destruct (SFmul prec emax (SFopp beta) d); first [done | apply Hexp].
  - rewrite (uniform_step_returned np_exp _ _ _ _ _ Eu). simpl.
    rewrite Hwi. apply Hu.
Qed.

(** C4: at [beta = 0], for an [np.exp] that answers [1.0] at the zeros and
    draws below [1.0], in a run all of whose steps computed a finite energy
    difference every record written has accept flag [1] and the recorded
    states are, step by step, the proposals; the driver returns normally
    when all [N] steps completed. *)
Theorem beta_zero_accepts_all x0 h beta N path w :
  is_zero beta = true ->
  (forall sg, np_exp (S754_zero sg) = f_one) ->
  (forall k, SFltb (rng_draws w k) f_one = true) ->
  forallb (energy_finite np_exp)
    (chain (NT := Number_binary64 np_exp) (Z.to_nat N) x0 h beta w) = true ->
  let log := chain (NT := Number_binary64 np_exp) (Z.to_nat N) x0 h beta w in
  let res := run_mc (NT := Number_binary64 np_exp) x0 h beta N path w in
  files (snd res) !! path
    = Some (header_row :: map data_row (map step_record log)) /\
  (length log = Z.to_nat N -> fst res = Returned tt) /\
  Forall (fun r => snd r = 1%Z) (map step_record log) /\
  map (fun r => Returned (fst r)) (map step_record log)
    = map step_proposal log.
Proof.
  intros Hb Hexp Hu Hfin log res.
  destruct (run_mc_chain (NT := Number_binary64 np_exp) x0 h beta N path w) as (I1 & _ & _ & I4 & _).
  split; [done |]. split; [done |].
  assert (Hall : Forall (fun s => snd (step_record s) = 1%Z /\
                    step_proposal s = Returned (fst (step_record s))) log).
  { apply Forall_lookup. intros i s Hs.
    apply (chain_beta_zero (Z.to_nat N) x0 h beta w i s); try done.
    apply (proj1 (forallb_forall _ _) Hfin).
    apply list_elem_of_In. by apply (list_elem_of_lookup_2 _ i). }
  clearbody log. clear -Hall. split.
  - induction Hall as [|s l [Hs _] _ IH]; simpl; constructor; done.
  - induction Hall as [|s l [_ Hs] _ IH]; simpl; [done |].
    by rewrite Hs, IH.
Qed.

(** With a step size of zero, a finite state whose square does not
    overflow and a finite [beta], the step returns the state it was given,
    accepted, after two draws. *)
Lemma metropolis_h_zero x h beta w e :
  (forall sg, np_exp (S754_zero sg) = f_one) ->
  is_zero h = true ->
  isfinite x = true -> x <> S754_zero true ->
  float_pow2 x = Returned e ->
  isfinite beta = true ->
  (forall k, is_unit_draw (rng_draws w k) = true) ->
  metropolis (NT := Number_binary64 np_exp) x h beta w
  = (Returned (x, 1%Z), rng_skip 2 w).
Proof.
  intros Hexp Hh Hx Hx0 He Hb Hu.
  destruct (proposal_h_zero x h (rng_draws w (rng_pos w)) Hh (Hu _))
    as [Hfin [Hc | [Hc _]]]; [| done].
  assert (Hstep : uniform_step (NT := Number_binary64 np_exp) x h w
                  = (Returned x, rng_skip 1 w)).
  { rewrite uniform_step_binary64. cbv zeta. by rewrite Hfin, Hc. }
  assert (Hd : delta_H (NT := Number_binary64 np_exp) x x
               = Returned (S754_zero false)).
  { unfold delta_H, H. cbn [num_sqr num_sub Number_binary64].
    rewrite He. f_equal. apply SFsub_diag. by apply (float_pow2_finite x). }
  rewrite (metropolis_p_one np_exp x h beta w x (rng_skip 1 w)
             (S754_zero false) Hstep Hd).
  - done.
  - pose proof (SFmul_zero_r (SFopp beta) (S754_zero false)) as Hz.
    rewrite isfinite_opp in Hz. specialize (Hz Hb eq_refl).
    destruct (SFmul prec emax (SFopp beta) (S754_zero false));
      first [done | apply Hexp].
  - apply is_unit_draw_lt, Hu.
Qed.

Lemma chain_h_zero n : forall x h beta w e,
  (forall sg, np_exp (S754_zero sg) = f_one) ->
  is_zero h = true ->
  isfinite x = true -> x <> S754_zero true ->
  float_pow2 x = Returned e ->
  isfinite beta = true ->
  (forall k, is_unit_draw (rng_draws w k) = true) ->
  map step_record (chain (NT := Number_binary64 np_exp) n x h beta w)
  = replicate n (x, 1%Z).
Proof.
  induction n as [|n IH]; intros x h beta w e Hexp Hh Hx Hx0 He Hb Hu;
    [done |].
  cbn [chain]. rewrite (metropolis_h_zero x h beta w e) by done.
  cbn [map step_record replicate fst]. f_equal.
  by apply (IH x h beta (rng_skip 2 w) e).
Qed.

(** X7: with a step size of zero the chain stays where it starts: for a
    finite initial state other than [-0.0] whose square does not overflow,
    a finite [beta], an [np.exp] that answers [1.0] at the zeros and the
    generator's draws, the driver returns normally and writes [N] records,
    each the initial state with flag [1]. *)
Theorem run_mc_h_zero x0 h beta N path w e :
  (forall sg, np_exp (S754_zero sg) = f_one) ->
  is_zero h = true ->
  isfinite x0 = true -> x0 <> S754_zero true ->
  float_pow2 x0 = Returned e ->
  isfinite beta = true ->
  (forall k, is_unit_draw (rng_draws w k) = true) ->
  fst (run_mc (NT := Number_binary64 np_exp) x0 h beta N path w)
    = Returned tt /\
  files (snd (run_mc (NT := Number_binary64 np_exp) x0 h beta N path w)) !! path
    = Some (header_row :: replicate (Z.to_nat N) (data_row (x0, 1%Z))).
Proof.
  intros Hexp Hh Hx Hx0 He Hb Hu.
  destruct (run_mc_chain (NT := Number_binary64 np_exp) x0 h beta N path w) as (I1 & _ & _ & I4 & _).
  pose proof (chain_h_zero (Z.to_nat N) x0 h beta w e Hexp Hh Hx Hx0 He Hb Hu)
    as Hrecs.
  split.
  - apply I4. rewrite <- (length_map step_record), Hrecs.
    apply length_replicate.
  - rewrite I1, Hrecs. do 2 f_equal.
    generalize (Z.to_nat N) as n.
    induction n as [|n IH]; [done |]. simpl. by rewrite IH.
Qed.
End BinaryAcceptance.

(** ** Runs on concrete floats *)

Section BinaryExamples.
Import Float64.

Lemma exp_at_zero_zeros sg : exp_at_zero (S754_zero sg) = f_one.
Proof. reflexivity. Qed.


Lemma w_zero_unit k : is_unit_draw (rng_draws w_zero k) = true.
Proof. reflexivity. Qed.

(** From [x = 0.0] with [h = 8e307], [beta = 0.0] and the draw [0.75], the
    candidate is [inf], the energy difference [inf], the exponent
    [-0.0 * inf = nan]; when [np.exp] answers [nan] there, both tests fail
    and the step rejects. *)
Lemma metropolis_nan_rejects (np_exp : spec_float -> spec_float) :
  np_exp S754_nan = S754_nan ->
  uniform_step (NT := Number_binary64 np_exp) f_zero f_8e307 w_075
    = (Returned f_inf, rng_skip 1 w_075) /\
  delta_H (NT := Number_binary64 np_exp) f_zero f_inf = Returned f_inf /\
  SFmul prec emax (SFopp f_zero) f_inf = S754_nan /\
  metropolis (NT := Number_binary64 np_exp) f_zero f_8e307 f_zero w_075
    = (Returned (f_zero, 0%Z), rng_skip 2 w_075).
Proof.
  intros Hnan. split; [reflexivity |]. split; [reflexivity |].
  split; [reflexivity |].
  unfold metropolis, bind.
  change (uniform_step (NT := Number_binary64 np_exp) f_zero f_8e307 w_075)
    with (Returned (A := spec_float) f_inf, rng_skip 1 w_075).
  unfold lift_outcome.
  change (delta_H (NT := Number_binary64 np_exp) f_zero f_inf)
    with (Returned (A := spec_float) f_inf).
  cbn [num_exp num_mul num_neg num_ltb num_one Number_binary64].
  change (SFmul prec emax (SFopp f_zero) f_inf) with S754_nan.
  rewrite Hnan. reflexivity.
Qed.

(** C1, as stated, fails: [1e200] is a finite state, the proposal with
    [h = 0.0] is [1e200] again, its energy cannot be computed, and the step
    raises [OverflowError] instead of returning [(candidate, 1)] or
    [(x, 0)]. *)
Lemma metropolis_decision_counterexample :
  isfinite f_1e200 = true /\
  forall np_exp : spec_float -> spec_float,
    uniform_step (NT := Number_binary64 np_exp) f_1e200 f_zero w_zero
      = (Returned f_1e200, rng_skip 1 w_zero) /\
    delta_H (NT := Number_binary64 np_exp) f_1e200 f_1e200
      = Raised OverflowError /\
    metropolis (NT := Number_binary64 np_exp) f_1e200 f_zero f_one w_zero
      = (Raised OverflowError, rng_skip 1 w_zero).
Proof.
  split; [reflexivity |]. intros np_exp.
  split; [reflexivity |]. split; [vm_compute; reflexivity |].
  apply (metropolis_raises np_exp f_1e200 f_zero f_one w_zero f_1e200).
  - reflexivity.
  - vm_compute. reflexivity.
Qed.


(** C4, as stated, fails at [beta = 0.0]: from [x0 = 1e200] the run raises
    and writes no record; and from [x0 = 0.0] with [h = 8e307] and the draw
    [0.75], when [np.exp] answers [nan] at [nan], the one record written
    has flag [0] and the state [0.0], not the proposal [inf]. *)
Lemma beta_zero_counterexample :
  (forall np_exp : spec_float -> spec_float,
     fst (run_mc (NT := Number_binary64 np_exp)
            f_1e200 f_zero f_zero 1 "out.csv" w_zero)
       = Raised OverflowError /\
     files (snd (run_mc (NT := Number_binary64 np_exp)
                   f_1e200 f_zero f_zero 1 "out.csv" w_zero)) !! "out.csv"
       = Some [header_row]) /\
  (forall np_exp : spec_float -> spec_float,
     np_exp S754_nan = S754_nan ->
     fst (uniform_step (NT := Number_binary64 np_exp) f_zero f_8e307 w_075)
       = Returned f_inf /\
     fst (run_mc (NT := Number_binary64 np_exp)
            f_zero f_8e307 f_zero 1 "out.csv" w_075)
       = Returned tt /\
     files (snd (run_mc (NT := Number_binary64 np_exp)
                   f_zero f_8e307 f_zero 1 "out.csv" w_075)) !! "out.csv"
       = Some [header_row; data_row (f_zero, 0%Z)]).
Proof.
  split.
  - intros np_exp. rewrite run_mc_eq. change (Z.to_nat 1) with 1%nat.
    rewrite mc_loop_S.
    destruct (metropolis_overflow_state np_exp f_1e200 f_zero f_zero
                (set_files (<[ "out.csv" := [header_row] ]> (files w_zero)) w_zero)
                OverflowError) as (k & _ & ->); [vm_compute; reflexivity |].
    simpl. split; [done | apply lookup_insert_eq].
  - intros np_exp Hnan.
    destruct (metropolis_nan_rejects np_exp Hnan) as (Hc & _ & _ & Hm).
    split; [by rewrite Hc |].
    destruct (run_mc_chain (NT := Number_binary64 np_exp)
                f_zero f_8e307 f_zero 1 "out.csv" w_075)
      as (I1 & _ & _ & I4 & _).
    change (Z.to_nat 1) with 1%nat in I1, I4. cbn [chain] in I1, I4.
    rewrite Hm in I1, I4. split; [by apply I4 | exact I1].
Qed.




Lemma beta_zero_accepts_all_witness :
  let log := chain (NT := Number_binary64 exp_at_zero)
               (Z.to_nat 3) f_zero f_one f_zero w_zero in
  let res := run_mc (NT := Number_binary64 exp_at_zero)
               f_zero f_one f_zero 3 "out.csv" w_zero in
  files (snd res) !! "out.csv"
    = Some (header_row :: map data_row (map step_record log)) /\
  (length log = Z.to_nat 3 -> fst res = Returned tt) /\
  Forall (fun r => snd r = 1%Z) (map step_record log) /\
  map (fun r => Returned (fst r)) (map step_record log)
    = map step_proposal log.
Proof.
  apply (beta_zero_accepts_all exp_at_zero f_zero f_one f_zero 3
           "out.csv" w_zero).
  - reflexivity.
  - intros sg. reflexivity.
  - intros k. reflexivity.
  - vm_compute. reflexivity.
Defined.




Lemma run_mc_h_zero_witness :
  fst (run_mc (NT := Number_binary64 exp_at_zero)
         f_zero f_zero f_one 5 "out.csv" w_zero) = Returned tt /\
  files (snd (run_mc (NT := Number_binary64 exp_at_zero)
                f_zero f_zero f_one 5 "out.csv" w_zero)) !! "out.csv"
    = Some (header_row :: replicate (Z.to_nat 5) (data_row (f_zero, 1%Z))).
Proof.
  apply (run_mc_h_zero exp_at_zero f_zero f_zero f_one 5 "out.csv" w_zero
           (S754_zero false)).
  - apply exp_at_zero_zeros.
  - reflexivity.
  - reflexivity.
  - discriminate.
  - reflexivity.
  - reflexivity.
  - apply w_zero_unit.
Defined.
End BinaryExamples.
